(** * usehooks-ts: [useAsync] and [useCopyToClipboard]

    A shallow embedding of the two hooks and the properties of their
    [execute], [reset] and [copy] functions.

    Both hooks are [async] functions over React state cells.  An [async]
    function runs synchronously up to its [await], is suspended there, and
    is resumed later with the outcome of the awaited promise; other calls
    and events of the same component can run in between.  The embedding
    keeps that structure:

    - the body of a function is a program of a small monad with exceptions,
      [try]/[catch] and an [Await] node ([Async.prog]);
    - an interpreter runs a program up to its [Await], records the actions
      it performs, and hands back the continuation ([Async.run]);
    - a [world] holds the cells of one component together with the calls
      that are suspended and the promises of the calls that ended;
    - the life of a component is a list of events (renders, effects, calls,
      settlements), which [run_events] plays from the first render.

    The embedding has the throws of the awaited calls, of the callbacks
    that a caller passes to [copy], of the conversion [String(err)] in the
    two [catch] blocks, and of the reading of [navigator] where it is not
    declared.  The console, the reading of a property of an object that is
    there, and [instanceof] are taken not to throw.  A state setter of
    React assigns its cell, except that it calls a function it is given
    with the previous state and assigns what the function returns. *)

From stdpp Require Import base option list gmap strings pretty.

Set Default Proof Using "Type".

(** ** JavaScript values that the hooks look at *)

Module JS.

(** An [Error] object; [new Error(msg)] is [new_Error msg]. *)
Record Error : Type := new_Error { message : string }.

(** What a [throw] or a rejected promise carries: an [Error] object, for
    which [err instanceof Error] holds, or any other value. *)
Inductive thrown (V : Type) : Type :=
| an_Error (e : Error)
| non_Error (v : V).
Arguments an_Error {V} e.
Arguments non_Error {V} v.

(** How the evaluation of an expression ends: with a value, or by a
    [throw]. *)
Inductive evaluated (V A : Type) : Type :=
| Value (a : A)
| Thrown (v : thrown V).
Arguments Value {V A} a.
Arguments Thrown {V A} v.

(** [String(v)] on the values that are not [Error] objects.  The type [V]
    of those values is left open: the hooks observe a thrown value only
    through [instanceof Error] and [String].  [String(v)] gives a string, or
    throws: a [TypeError] for an object without [toString] and [valueOf]
    such as [Object.create(null)], or what the [toString] of [v] throws. *)
Class Stringable (V : Type) : Type := js_String : V → evaluated V string.

(** [err instanceof Error ? err : new Error(String(err))] *)
Definition as_Error `{Stringable V} (err : thrown V) : evaluated V Error :=
  match err with
  | an_Error e => Value e
  | non_Error v =>
      match js_String v with
      | Value s => Value (new_Error s)
      | Thrown t => Thrown t
      end
  end.

(** The two ways a promise settles. *)
Inductive settled (V A : Type) : Type :=
| Fulfilled (a : A)
| Rejected (v : thrown V).
Arguments Fulfilled {V A} a.
Arguments Rejected {V A} v.

(** Strings thrown as they are: [String("x") = "x"]. *)
#[export] Instance string_Stringable : Stringable string := λ s, Value s.

(** Two values to throw that are not [Error]s: a string, and
    [Object.create(null)], on which [String] throws a [TypeError]. *)
Inductive sample : Type :=
| Str (s : string)
| Bare_object.

Definition TypeError_primitive : Error :=
  new_Error "Cannot convert object to primitive value".

#[export] Instance sample_Stringable : Stringable sample := λ v,
  match v with
  | Str s => Value s
  | Bare_object => Thrown (an_Error TypeError_primitive)
  end.

End JS.
Export JS.

(** ** Async functions *)

Module Async.
Section Programs.
Context {V : Type}.
(** [action]: the synchronous operations of the function body, each with
    the type of what it returns; [call]: what an [await]ed call is made
    with; [P]: what the awaited promise fulfils with. *)
Context {action : Type} {result : action → Type} {call : Type} {P : Type}.

Inductive prog (R : Type) : Type :=
| Ret (r : R)
| Throw (v : thrown V)
| Act (a : action) (k : result a → prog R)
| Await (c : call) (k : settled V P → prog R).
Arguments Ret {R} r.
Arguments Throw {R} v.
Arguments Act {R} a k.
Arguments Await {R} c k.

Fixpoint bind {A B} (f : A → prog B) (p : prog A) : prog B :=
  match p with
  | Ret a => f a
  | Throw v => Throw v
  | Act a k => Act a (λ x, bind f (k x))
  | Await c k => Await c (λ o, bind f (k o))
  end.

(** [try { p } catch (err) { h err }] *)
Fixpoint try_catch {A} (p : prog A) (h : thrown V → prog A) : prog A :=
  match p with
  | Ret a => Ret a
  | Throw v => h v
  | Act a k => Act a (λ x, try_catch (k x) h)
  | Await c k => Await c (λ o, try_catch (k o) h)
  end.

Definition perform (a : action) : prog (result a) := Act a Ret.

(** An expression inside a program: what it throws is thrown there. *)
Definition evaluate {A} (r : evaluated V A) : prog A :=
  match r with Value a => Ret a | Thrown v => Throw v end.

(** [await c]: a fulfilled promise gives its value, a rejected one
    throws at the [await].  A call that throws before it returns a promise
    reaches the same [catch]; it is the rejection that settles before any
    other event. *)
Definition await (c : call) : prog P :=
  Await c (λ o, match o with Fulfilled x => Ret x | Rejected v => Throw v end).

(** *** Running a program up to its [await] *)

Context {S : Type} (handle : ∀ a : action, S → S * result a).

Inductive completion (R : Type) : Type :=
| Returned (r : R)
| Threw (v : thrown V)
| Suspended (c : call) (k : settled V P → prog R).
Arguments Returned {R} r.
Arguments Threw {R} v.
Arguments Suspended {R} c k.

(** The state it leaves, the actions it performed in order, and how it
    stopped. *)
Fixpoint run {R} (p : prog R) (s : S) : S * list action * completion R :=
  match p with
  | Ret r => (s, [], Returned r)
  | Throw v => (s, [], Threw v)
  | Act a k =>
      let '(s1, x) := handle a s in
      let '(s2, tr, c) := run (k x) s1 in
      (s2, a :: tr, c)
  | Await c k => (s, [], Suspended c k)
  end.

(** One call from its start to its end: made in state [s], its awaited
    promise settles with [o] when the state has become [s']. *)
Definition run_call {R} (p : prog R) (s : S) (o : settled V P) (s' : S)
  : S * list action * completion R :=
  match run p s with
  | (_, tr1, Suspended _ k) =>
      let '(s2, tr2, c) := run (k o) s' in (s2, tr1 ++ tr2, c)
  | r => r
  end.

(** [k] is what a call of the function with body [p] is resumed with. *)
Definition resumes {R} (p : prog R) (k : settled V P → prog R) : Prop :=
  ∃ s s1 tr c, run p s = (s1, tr, Suspended c k).

(** *** The calls in flight *)

Record world (R : Type) : Type := World {
  store : S;
  pending : gmap nat (settled V P → prog R);
  finished : gmap nat (settled V R);
  next : nat;
}.
Arguments World {R} _ _ _ _.
Arguments store {R} _.
Arguments pending {R} _.
Arguments finished {R} _.
Arguments next {R} _.

Definition deliver {R} (id : nat) (r : S * list action * completion R)
    (w : world R) : world R :=
  match r with
  | (s, _, Returned x) =>
      World s (delete id (pending w)) (<[id := Fulfilled x]> (finished w)) (next w)
  | (s, _, Threw v) =>
      World s (delete id (pending w)) (<[id := Rejected v]> (finished w)) (next w)
  | (s, _, Suspended _ k) =>
      World s (<[id := k]> (pending w)) (finished w) (next w)
  end.

(** A new call of the function with body [p]. *)
Definition start {R} (p : prog R) (w : world R) : world R :=
  deliver (next w) (run p (store w))
    (World (store w) (pending w) (finished w) (Datatypes.S (next w))).

(** The promise awaited by call [id] settles with [o]; a promise settles
    once, so nothing happens when [id] is not waiting. *)
Definition settle {R} (id : nat) (o : settled V P) (w : world R) : world R :=
  match pending w !! id with
  | Some k => deliver id (run (k o) (store w)) w
  | None => w
  end.

(** A change of the store by something else than a call. *)
Definition update {R} (f : S → S) (w : world R) : world R :=
  World (f (store w)) (pending w) (finished w) (next w).

End Programs.

Arguments prog {V} action result call P R.
Arguments completion {V} action result call P R.
Arguments world {V} action result call P S R.
Arguments Ret {V action result call P R} r.
Arguments Throw {V action result call P R} v.
Arguments Act {V action result call P R} a k.
Arguments Await {V action result call P R} c k.
Arguments Returned {V action result call P R} r.
Arguments Threw {V action result call P R} v.
Arguments Suspended {V action result call P R} c k.
Arguments World {V action result call P S R} _ _ _ _.
Arguments store {V action result call P S R} _.
Arguments pending {V action result call P S R} _.
Arguments finished {V action result call P S R} _.
Arguments next {V action result call P S R} _.

#[export] Instance prog_ret {V action result call P}
  : MRet (@prog V action result call P) := λ _ r, Ret r.
#[export] Instance prog_bind {V action result call P}
  : MBind (@prog V action result call P) := λ _ _ f p, bind f p.

End Async.
Export Async.

(** ** [useAsync] *)

Module UseAsync.

(** [type Status = 'idle' | 'loading' | 'success' | 'error'] *)
Inductive Status : Type := St_idle | St_loading | St_success | St_error.

#[export] Instance Status_eq_dec : EqDecision Status.
Proof. solve_decision. Defined.

(** What a [useState] setter makes of a value of [T]: whether the value is
    [null], and whether it is a function, which React then calls with the
    previous state as an updater ([as_updater r] is that call, taken to
    return). *)
Class Storable (T : Type) : Type := {
  is_null : T → bool;
  as_updater : T → option (option T → option T);
}.

(** [setData(value)] on the cell [useState<T | null>(null)]; [None] is
    [null]. *)
Definition set_state `{Storable T} (previous value : option T) : option T :=
  match value with
  | None => None
  | Some r =>
      match as_updater r with
      | Some f => f previous
      | None => if is_null r then None else Some r
      end
  end.

(** Data that is neither [null] nor a function, as numbers are. *)
Definition plain (T : Type) : Storable T :=
  {| is_null := λ _, false; as_updater := λ _, None |}.

#[export] Instance nat_Storable : Storable nat := plain nat.

(** Numbers, and the functions [() => n]. *)
Inductive number_or_function : Type :=
| Number (n : nat)
| Function_returning (n : nat).

#[export] Instance number_or_function_Storable : Storable number_or_function :=
  {| is_null := λ _, false;
     as_updater := λ r,
       match r with
       | Number _ => None
       | Function_returning n => Some (λ _, Some (Number n))
       end |}.

Section Hook.
(** [T]: the data of the async function; [Fn]: the async functions
    a render can pass; [V]: the values that are thrown and are not
    [Error]s. *)
Context {T Fn V : Type} `{!Stringable V} `{!Storable T}.

(** The three [useState] cells and the two [useRef] cells. *)
Record cells : Type := Cells {
  status : Status;
  data : option T;
  error : option Error;
  isMountedRef : bool;
  asyncFunctionRef : Fn;
}.

Inductive action : Type :=
| SetStatus (s : Status)
| SetData (d : option T)
| SetError (e : option Error)
| Get_isMountedRef
| Get_asyncFunctionRef.

Definition result (a : action) : Type :=
  match a with
  | SetStatus _ | SetData _ | SetError _ => unit
  | Get_isMountedRef => bool
  | Get_asyncFunctionRef => Fn
  end.

Definition handle (a : action) (h : cells) : cells * result a :=
  match a return cells * result a with
  | SetStatus s =>
      (Cells s (data h) (error h) (isMountedRef h) (asyncFunctionRef h), ())
  | SetData d =>
      (Cells (status h) (set_state (data h) d) (error h) (isMountedRef h)
         (asyncFunctionRef h), ())
  | SetError e =>
      (Cells (status h) (data h) e (isMountedRef h) (asyncFunctionRef h), ())
  | Get_isMountedRef => (h, isMountedRef h)
  | Get_asyncFunctionRef => (h, asyncFunctionRef h)
  end.

(** The awaited call is a call of the async function, and its promise
    fulfils with a [T]. *)
Local Abbreviation prog := (Async.prog (V:=V) action result Fn T).

Definition setStatus (s : Status) : prog unit := perform (SetStatus s).
Definition setData (d : option T) : prog unit := perform (SetData d).
Definition setError (e : option Error) : prog unit := perform (SetError e).
Definition isMountedRef_current : prog bool := perform Get_isMountedRef.
Definition asyncFunctionRef_current : prog Fn := perform Get_asyncFunctionRef.

(** [const execute = useCallback(async () => { ... }, [])] *)
Definition execute : prog unit :=
  setStatus St_loading ;;
  setData None ;;
  setError None ;;
  try_catch
    (asyncFunction ← asyncFunctionRef_current;
     response ← await asyncFunction;
     mounted ← isMountedRef_current;
     if mounted : bool then
       setData (Some response) ;;
       setStatus St_success
     else mret ())
    (λ err,
     mounted ← isMountedRef_current;
     if mounted : bool then
       normalized ← evaluate (as_Error err);
       setError (Some normalized) ;;
       setStatus St_error
     else mret ()).

(** [const reset = useCallback(() => { ... }, [])] *)
Definition reset : prog unit :=
  setStatus St_idle ;;
  setData None ;;
  setError None.

(** What the hook returns to the component on a render ([execute] and
    [reset] are the two programs above). *)
Record UseAsyncReturn : Type := {
  ret_data : option T;
  ret_error : option Error;
  ret_status : Status;
  ret_loading : bool;
}.

Definition useAsync_return (h : cells) : UseAsyncReturn :=
  {| ret_data := data h;
     ret_error := error h;
     ret_status := status h;
     ret_loading := bool_decide (status h = St_loading) |}.

(** *** The life of one component that uses the hook *)

Local Abbreviation world := (Async.world (V:=V) action result Fn T cells unit).

(** The first render: [useState('idle')], [useState(null)],
    [useState(null)], [useRef(true)], [useRef(asyncFunction)]. *)
Definition mount (asyncFunction : Fn) : world :=
  World (Cells St_idle None None true asyncFunction) ∅ ∅ 0.

Inductive event : Type :=
| Render (asyncFunction : Fn)     (* asyncFunctionRef.current = asyncFunction *)
| Effect (immediate : bool)       (* the body of the useEffect *)
| Cleanup                         (* the function the useEffect returns *)
| Call_execute
| Call_reset
| Settle (id : nat) (o : settled V T).

Definition set_asyncFunctionRef (f : Fn) (h : cells) : cells :=
  Cells (status h) (data h) (error h) (isMountedRef h) f.
Definition set_isMountedRef (b : bool) (h : cells) : cells :=
  Cells (status h) (data h) (error h) b (asyncFunctionRef h).

Definition step (e : event) (w : world) : world :=
  match e with
  | Render f => update (set_asyncFunctionRef f) w
  | Effect immediate =>
      let w := update (set_isMountedRef true) w in
      if immediate then start handle execute w else w
  | Cleanup => update (set_isMountedRef false) w
  | Call_execute => start handle execute w
  | Call_reset => update (λ h, (run handle reset h).1.1) w
  | Settle id o => settle handle id o w
  end.

Definition run_events (evs : list event) (w : world) : world :=
  foldl (λ w e, step e w) w evs.

(** The events that call [execute]: the component does, or the effect
    does when [immediate] is set. *)
Definition calls_execute (e : event) : bool :=
  match e with Call_execute | Effect true => true | _ => false end.

(** The settlements, told apart by their outcome and by the call they
    belong to; calls are numbered in the order they are made ([next]). *)
Definition is_failure (e : event) : bool :=
  match e with Settle _ (Rejected _) => true | _ => false end.
Definition is_success (e : event) : bool :=
  match e with Settle _ (Fulfilled _) => true | _ => false end.
Definition settles (id : nat) (e : event) : bool :=
  match e with Settle j _ => bool_decide (j = id) | _ => false end.

(** Every call in flight is a call of [execute] and has a number below
    the next one. *)
Definition consistent (w : world) : Prop :=
  ∀ id k, pending w !! id = Some k → resumes handle execute k ∧ id < next w.

End Hook.

Arguments cells : clear implicits.
Arguments action : clear implicits.
Arguments event : clear implicits.
Arguments UseAsyncReturn : clear implicits.

End UseAsync.

(** ** [useCopyToClipboard] *)

Module UseCopyToClipboard.
Section Hook.
(** [V]: the values that are thrown and are not [Error]s. *)
Context {V : Type} `{!Stringable V}.

(** [type CopiedValue = string | null] *)
Definition CopiedValue : Type := option string.

(** A callback is code of the caller: a call of it returns, or throws. *)
Inductive callback_end : Type :=
| Returns
| Throws (v : thrown V).

(** [{ text }] and [{ error, text }], what the callbacks are called with. *)
Record SuccessData : Type := { success_text : string }.
Record ErrorData : Type := { error_error : Error; error_text : string }.

(** [type CopyOptions = { onSuccess?: ...; onError?: ... }] *)
Record CopyOptions : Type := {
  onSuccess : option (SuccessData → callback_end);
  onError : option (ErrorData → callback_end);
}.

(** The platform: the identifier [navigator] is not declared (reading it
    throws a [ReferenceError]), or it is and has no [clipboard], or it has
    one. *)
Inductive navigator_state : Type :=
| Undeclared
| Without_clipboard
| With_clipboard.

Definition ReferenceError_navigator : Error := new_Error "navigator is not defined".

(** The [useState] cell, and the platform. *)
Record cells : Type := Cells {
  copiedText : CopiedValue;
  navigator : navigator_state;
}.

Inductive action : Type :=
| Get_navigator_clipboard
| Console_warn (msg : string) (arg : option (thrown V))
| SetCopiedText (v : CopiedValue)
| Call_onSuccess (cb : SuccessData → callback_end) (d : SuccessData)
| Call_onError (cb : ErrorData → callback_end) (d : ErrorData).

Definition result (a : action) : Type :=
  match a with
  | Get_navigator_clipboard => evaluated V bool
  | Console_warn _ _ | SetCopiedText _ => unit
  | Call_onSuccess _ _ | Call_onError _ _ => callback_end
  end.

Definition handle (a : action) (h : cells) : cells * result a :=
  match a return cells * result a with
  | Get_navigator_clipboard =>
      (h, match navigator h with
          | Undeclared => Thrown (an_Error ReferenceError_navigator)
          | Without_clipboard => Value false
          | With_clipboard => Value true
          end)
  | Console_warn _ _ => (h, ())
  | SetCopiedText v => (Cells v (navigator h), ())
  | Call_onSuccess cb d => (h, cb d)
  | Call_onError cb d => (h, cb d)
  end.

(** The awaited call is [navigator.clipboard.writeText(text)]; its promise
    fulfils with [undefined]. *)
Local Abbreviation prog := (Async.prog (V:=V) action result string unit).

(** [navigator?.clipboard], as the condition of the [if] takes it. *)
Definition get_navigator_clipboard : prog bool :=
  perform Get_navigator_clipboard ≫= evaluate.
Definition console_warn (msg : string) (arg : option (thrown V)) : prog unit :=
  perform (Console_warn msg arg).
Definition setCopiedText (v : CopiedValue) : prog unit := perform (SetCopiedText v).
Definition writeText (text : string) : prog unit := await text.

(** A call of a callback: what it throws is thrown at the place of the
    call. *)
Definition ended (r : callback_end) : prog unit :=
  match r with Returns => mret () | Throws v => Throw v end.
Definition call_onSuccess (cb : SuccessData → callback_end) (d : SuccessData) : prog unit :=
  perform (Call_onSuccess cb d) ≫= ended.
Definition call_onError (cb : ErrorData → callback_end) (d : ErrorData) : prog unit :=
  perform (Call_onError cb d) ≫= ended.

(** [const copy: CopyFn = useCallback(async (text, options) => { ... }, [])];
    [options ≫= onError] is [options?.onError]. *)
Definition copy (text : string) (options : option CopyOptions) : prog bool :=
  clipboard ← get_navigator_clipboard;
  if negb clipboard then
    let error := new_Error "Clipboard not supported" in
    console_warn "Clipboard not supported" None ;;
    match options ≫= onError with
    | Some cb => call_onError cb {| error_error := error; error_text := text |}
    | None => mret ()
    end ;;
    mret false
  else
    try_catch
      (writeText text ;;
       setCopiedText (Some text) ;;
       match options ≫= onSuccess with
       | Some cb => call_onSuccess cb {| success_text := text |}
       | None => mret ()
       end ;;
       mret true)
      (λ error,
       console_warn "Copy failed" (Some error) ;;
       setCopiedText None ;;
       errorObj ← evaluate (as_Error error);
       match options ≫= onError with
       | Some cb => call_onError cb {| error_error := errorObj; error_text := text |}
       | None => mret ()
       end ;;
       mret false).

(** *** The life of one component that uses the hook *)

Local Abbreviation world := (Async.world (V:=V) action result string unit cells bool).

(** The first render: [useState(null)]. *)
Definition mount (platform : navigator_state) : world :=
  World (Cells None platform) ∅ ∅ 0.

Inductive event : Type :=
| Call_copy (text : string) (options : option CopyOptions)
| Settle (id : nat) (o : settled V unit)
| Platform (platform : navigator_state).   (* the platform changes *)

Definition set_navigator (p : navigator_state) (h : cells) : cells :=
  Cells (copiedText h) p.

Definition step (e : event) (w : world) : world :=
  match e with
  | Call_copy text options => start handle (copy text options) w
  | Settle id o => settle handle id o w
  | Platform p => update (set_navigator p) w
  end.

Definition run_events (evs : list event) (w : world) : world :=
  foldl (λ w e, step e w) w evs.

(** *** What one call did, read off the actions it performed *)

Definition is_Call_onSuccess (a : action) : bool :=
  match a with Call_onSuccess _ _ => true | _ => false end.
Definition is_Call_onError (a : action) : bool :=
  match a with Call_onError _ _ => true | _ => false end.

(** How many of the actions [tr] are calls of a callback. *)
Definition times (f : action → bool) (tr : list action) : nat :=
  length (List.filter f tr).

(** The values that the actions [tr] gave to [copiedText], in order. *)
Definition writes (tr : list action) : list CopiedValue :=
  omap (λ a, match a with SetCopiedText v => Some v | _ => None end) tr.

(** The three ways through [copy], as the platform and the write decide. *)
Inductive branch : Type := Capability_missing | Write_failure | Write_success.

Definition branch_of (platform : navigator_state) (o : settled V unit) : branch :=
  match platform with
  | With_clipboard =>
      match o with Fulfilled _ => Write_success | Rejected _ => Write_failure end
  | Without_clipboard | Undeclared => Capability_missing
  end.

(** The callbacks that are supplied return. *)
Definition returns {A} (cb : option (A → callback_end)) : Prop :=
  ∀ f a, cb = Some f → f a = Returns.

(** The values that reach the [catch] of a call: what the write is
    rejected with, and what [onSuccess] throws after a write that
    succeeded. *)
Definition caught (text : string) (options : option CopyOptions)
    (o : settled V unit) (v : thrown V) : Prop :=
  o = Rejected v ∨
  ∃ u cb, o = Fulfilled u ∧ options ≫= onSuccess = Some cb ∧
          cb {| success_text := text |} = Throws v.

End Hook.

Arguments cells : clear implicits.
Arguments callback_end : clear implicits.
Arguments CopyOptions : clear implicits.
Arguments action : clear implicits.
Arguments event : clear implicits.

End UseCopyToClipboard.

(** ** The rest of [useAsync]: options, renders, and what the cells keep *)

Module UseAsyncLife.
Import UseAsync.

(** [type UseAsyncOptions = { immediate?: boolean }] *)
Record UseAsyncOptions : Type := { immediate : option bool }.

(** [options: UseAsyncOptions = {}] and [const { immediate = true } = options]:
    the default applies when the options or the field are left out. *)
Definition immediate_of (options : option UseAsyncOptions) : bool :=
  default true (options ≫= immediate).

Section Hook.
Context {T Fn V : Type} `{!Stringable V} `{!Storable T}.

Local Abbreviation world :=
  (Async.world (V:=V) (action T) (@result T Fn) Fn T (cells T Fn) unit).

(** [useAsync(asyncFunction, options)] once the component is mounted: the
    first render, then the effect with the [immediate] of the options. *)
Definition mounted (asyncFunction : Fn) (options : option UseAsyncOptions) : world :=
  step (Effect (immediate_of options)) (mount asyncFunction).

(** The async function of the latest render. *)
Definition latest (asyncFunction : Fn) (evs : list (event T Fn V)) : Fn :=
  foldl (λ f e, match e with Render g => g | _ => f end) asyncFunction evs.

Definition is_settlement (e : event T Fn V) : bool :=
  match e with Settle _ _ => true | _ => false end.

(** What [status] tells about [data] and [error]. *)
Definition coherent (h : cells T Fn) : Prop :=
  match status h with
  | St_idle | St_loading => data h = None ∧ error h = None
  | St_success => True
  | St_error => is_Some (error h)
  end.

(** Every call that ended is no longer in flight and was counted; the
    calls in flight and the calls that ended are all the calls made. *)
Definition accounted (w : world) : Prop :=
  (∀ id res, finished w !! id = Some res →
     id < next w ∧ pending w !! id = None) ∧
  size (pending w) + size (finished w) = next w.

End Hook.
End UseAsyncLife.

(** ** The demo of [useAsync] *)

Module UseAsyncDemo.
Import UseAsync.

(** [{ id: number; name: string; email: string }] *)
Record User (Num : Type) : Type := {
  user_id : Num;
  user_name : string;
  user_email : string;
}.
Arguments user_id {Num} _.
Arguments user_name {Num} _.
Arguments user_email {Num} _.

(** A user is an object: not [null], not a function. *)
#[export] Instance User_Storable {Num} : Storable (User Num) := plain (User Num).

(** The safe integers from [0] on among the numbers, those up to
    [Number.MAX_SAFE_INTEGER]; [String] of one is its decimal form.  The
    demo fetches the user [1]. *)
Definition safe (n : N) : Prop := (n ≤ 9007199254740991)%N.

#[export] Instance safe_dec (n : N) : Decision (safe n).
Proof. unfold safe. apply _. Defined.

Definition safe_integer : Type := dsig safe.
Definition one : safe_integer := dexist (P:=safe) 1%N ltac:(unfold safe; lia).

(** [String(n)] on numbers, as a template literal applies it; on a number
    it does not throw. *)
Class Number_String (Num : Type) : Type := number_String : Num → string.

#[export] Instance safe_integer_String : Number_String safe_integer :=
  λ n, pretty (`n).

Section FetchUser.
Context {Num V : Type} `{!Number_String Num}.

(** [const fetchUser = async (userId) => { ... }]: after the delay,
    [Math.random() > 0.8] decides; [above] is that comparison.  The
    template literals put [String(userId)] in the strings. *)
Definition fetchUser (userId : Num) (above : bool) : settled V (User Num) :=
  if above then Rejected (an_Error (new_Error "Failed to fetch user data"))
  else Fulfilled
         {| user_id := userId;
            user_name := "User " +:+ number_String userId;
            user_email := "user" +:+ number_String userId +:+ "@example.com" |}.

End FetchUser.

(** What [Component] puts on the page. *)
Record page : Type := {
  fetch_disabled : bool;              (* <button onClick={execute} disabled={loading}> *)
  fetch_text : string;                (* {loading ? 'Loading...' : 'Fetch User'} *)
  status_code : string;               (* <code>{status}</code> *)
  loading_code : string;              (* <code>{loading.toString()}</code> *)
  error_block : option string;        (* {error && ... {error.message} ...} *)
  data_block : option (User safe_integer);     (* {data && ... JSON.stringify(data, null, 2) ...} *)
}.

Definition Status_string (s : Status) : string :=
  match s with
  | St_idle => "idle"
  | St_loading => "loading"
  | St_success => "success"
  | St_error => "error"
  end.

(** [export default function Component()], from what [useAsync] returns. *)
Definition Component (r : UseAsyncReturn (User safe_integer)) : page :=
  {| fetch_disabled := ret_loading r;
     fetch_text := if ret_loading r then "Loading..." else "Fetch User";
     status_code := Status_string (ret_status r);
     loading_code := if ret_loading r then "true" else "false";
     error_block := message <$> ret_error r;
     data_block := ret_data r |}.

Local Abbreviation world :=
  (Async.world (V:=string) (action (User safe_integer)) result unit (User safe_integer)
     (cells (User safe_integer) unit) unit).

(** [useAsync(() => fetchUser(1), { immediate: false })], mounted. *)
Definition demo_mount : world := step (Effect false) (mount ()).

(** What happens to the page: a click on one of the two buttons (a
    disabled button takes no click), or the fetch of a call comes back. *)
Inductive happening : Type :=
| Click_fetch
| Click_reset
| Fetched (id : nat) (above : bool).

Definition demo_step (e : happening) (w : world) : world :=
  match e with
  | Click_fetch =>
      if fetch_disabled (Component (useAsync_return (store w))) then w
      else step Call_execute w
  | Click_reset => step Call_reset w
  | Fetched id above => step (Settle id (fetchUser one above)) w
  end.

Definition demo_run (es : list happening) : world :=
  foldl (λ w e, demo_step e w) demo_mount es.

Definition demo_page (es : list happening) : page :=
  Component (useAsync_return (store (demo_run es))).

Definition is_Click_reset (e : happening) : bool :=
  match e with Click_reset => true | _ => false end.

(** The page at rest between the clicks and the fetches: the component is
    mounted, one call is in flight while [status] is ['loading'] and none
    otherwise, and [data] and [error] are not both set. *)
Definition steady (w : world) : Prop :=
  consistent w ∧ isMountedRef (store w) = true ∧
  match status (store w) with
  | St_loading =>
      data (store w) = None ∧ error (store w) = None ∧
      ∃ id, is_Some (pending w !! id) ∧ ∀ j, j ≠ id → pending w !! j = None
  | St_idle =>
      data (store w) = None ∧ error (store w) = None ∧ ∀ j, pending w !! j = None
  | St_success =>
      is_Some (data (store w)) ∧ error (store w) = None ∧ ∀ j, pending w !! j = None
  | St_error =>
      data (store w) = None ∧ is_Some (error (store w)) ∧ ∀ j, pending w !! j = None
  end.

(** What the fetches of the demo bring: the user [1], or the one failure. *)
Definition fetched (w : world) : Prop :=
  consistent w ∧
  (∀ e, error (store w) = Some e → e = new_Error "Failed to fetch user data") ∧
  (∀ u, data (store w) = Some u →
        u = {| user_id := one; user_name := "User 1";
               user_email := "user1@example.com" |}).

End UseAsyncDemo.

(** ** The demo of [useCopyToClipboard] *)

Module UseCopyToClipboardDemo.
Import UseCopyToClipboard.
Section Demo.
Context {V : Type} `{!Stringable V}.

(** What the demo prints on the console. *)
Inductive printed : Type :=
| Console_log (msg : string) (text : string)
    (* console.log('Copied!', { text }) *)
| Console_error_text (msg : string) (error : Error) (text : string)
    (* console.error('Failed to copy!', { error, text }) *)
| Console_error (msg : string) (error : thrown V).
    (* console.error('Failed to copy!', error) *)

(** [copy(text, { onSuccess: ..., onError: ... })]: both callbacks print
    and return. *)
Definition handleCopyWithCallbacks_options : CopyOptions V :=
  {| onSuccess := Some (λ _, Returns);   (* console.log('Copied!', { text }) *)
     onError := Some (λ _, Returns) |}.  (* console.error('Failed to copy!', { error, text }) *)

Definition handleCopyWithCallbacks (text : string)
  : prog (action V) result string unit bool :=
  copy text (Some handleCopyWithCallbacks_options).

(** What those two callbacks print when [copy] calls them. *)
Definition callback_prints (a : action V) : option printed :=
  match a with
  | Call_onSuccess _ d => Some (Console_log "Copied!" (success_text d))
  | Call_onError _ d =>
      Some (Console_error_text "Failed to copy!" (error_error d) (error_text d))
  | _ => None
  end.

(** [copy(text).then(() => console.log('Copied!', { text }))
               .catch(error => console.error('Failed to copy!', error))]:
    what the chain prints once the promise of [copy] is settled. *)
Definition handleCopyWithPromise (text : string)
  : prog (action V) result string unit bool :=
  copy text None.

Definition then_catch_prints (text : string)
    (c : completion (action V) result string unit bool) : list printed :=
  match c with
  | Returned _ => [Console_log "Copied!" text]
  | Threw error => [Console_error "Failed to copy!" error]
  | Suspended _ _ => []
  end.

(** The text a callback is called with. *)
Definition callback_text (a : action V) : option string :=
  match a with
  | Call_onSuccess _ d => Some (success_text d)
  | Call_onError _ d => Some (error_text d)
  | _ => None
  end.

End Demo.
End UseCopyToClipboardDemo.

(** * A call in the world and a call on its own *)

Section AsyncFacts.
Context {V action : Type} {result : action → Type} {call P S R : Type}.
Context (handle : ∀ a : action, S → S * result a).

Local Abbreviation world := (Async.world (V:=V) action result call P S R).

(** [run_call] is what the world does with one call: the call is made in
    the world [w], and its promise settles in a later world [w'] in which
    it is still waiting as it was left. *)
Lemma settle_run_call (p : prog action result call P R) (w w' : world) o :
  pending w' !! next w = pending (start handle p w) !! next w →
  store (settle handle (next w) o w') =
    match pending w' !! next w with
    | Some _ => (run_call handle p (store w) o (store w')).1.1
    | None => store w'
    end.
Proof.
  unfold settle, start, run_call. intros ->.
  destruct (run handle p (store w)) as [[s tr] [r|v|c k]]; cbn [deliver pending].
  - by rewrite lookup_delete_eq.
  - by rewrite lookup_delete_eq.
  - rewrite lookup_insert_eq.
    by destruct (run handle (k o) (store w')) as [[s2 tr2] [r2|v2|c2 k2]].
Qed.

(** How the promise of the call is settled then. *)
Lemma settle_finished (p : prog action result call P R) (w w' : world) o :
  pending w' !! next w = pending (start handle p w) !! next w →
  is_Some (pending w' !! next w) →
  match (run_call handle p (store w) o (store w')).2 with
  | Returned r => finished (settle handle (next w) o w') !! next w = Some (Fulfilled r)
  | Threw v => finished (settle handle (next w) o w') !! next w = Some (Rejected v)
  | Suspended _ _ => True
  end.
Proof.
  unfold settle, start, run_call. intros ->.
  destruct (run handle p (store w)) as [[s tr] [r|v|c k]]; cbn [deliver pending].
  - rewrite lookup_delete_eq. by intros [? [=]].
  - rewrite lookup_delete_eq. by intros [? [=]].
  - rewrite lookup_insert_eq. intros _.
    destruct (run handle (k o) (store w')) as [[s2 tr2] [r2|v2|c2 k2]];
      cbn; [apply lookup_insert_eq..|done].
Qed.

End AsyncFacts.

(** * Properties of [useAsync] *)

Section UseAsyncFacts.
Import UseAsync.
Context {T Fn V : Type} `{!Stringable V} `{!Storable T}.
Implicit Types (h : cells T Fn) (r : T) (v : thrown V) (o : settled V T).

Local Abbreviation world :=
  (Async.world (V:=V) (action T) result Fn T (cells T Fn) unit).
Local Abbreviation run := (Async.run (V:=V) (handle (T:=T) (Fn:=Fn))).

(** [execute] up to its [await]. *)
Lemma run_execute h :
  ∃ k, run execute h =
    (Cells St_loading None None (isMountedRef h) (asyncFunctionRef h),
     [SetStatus St_loading; SetData None; SetError None; Get_asyncFunctionRef],
     Suspended (asyncFunctionRef h) k).
Proof. eexists. reflexivity. Qed.

(** The part of [execute] after the [await], on a fulfilled promise... *)
Lemma resumed_fulfilled k r h :
  resumes handle execute k →
  run (k (Fulfilled r)) h =
    if isMountedRef h
    then (Cells St_success (set_state (data h) (Some r)) (error h) true
            (asyncFunctionRef h),
          [Get_isMountedRef; SetData (Some r); SetStatus St_success], Returned ())
    else (h, [Get_isMountedRef], Returned ()).
Proof.
  intros (s & s1 & tr & c & Hk). cbn in Hk. injection Hk as _ _ _ <-.
  destruct h as [st d e m f]. destruct m; reflexivity.
Qed.

(** ... and on a rejected one: what [String(err)] throws leaves the
    [catch] before any setter is called. *)
Lemma resumed_rejected k v h :
  resumes handle execute k →
  run (k (Rejected v)) h =
    if isMountedRef h
    then match as_Error v with
         | Value e =>
             (Cells St_error (data h) (Some e) true (asyncFunctionRef h),
              [Get_isMountedRef; SetError (Some e); SetStatus St_error],
              Returned ())
         | Thrown t => (h, [Get_isMountedRef], Threw t)
         end
    else (h, [Get_isMountedRef], Returned ()).
Proof.
  intros (s & s1 & tr & c & Hk). cbn in Hk. injection Hk as _ _ _ <-.
  destruct h as [st d e m f]. destruct m; [|reflexivity].
  cbn. by destruct (as_Error v).
Qed.

(** How the promise of a call of [execute] is settled in the end. *)
Local Abbreviation ends_with o h :=
  (match o with
   | Fulfilled _ => Fulfilled ()
   | Rejected v =>
       if isMountedRef h then
         match as_Error v with
         | Value _ => Fulfilled ()
         | Thrown t => Rejected t
         end
       else Fulfilled ()
   end).

(** *** Calls in flight *)

Lemma start_execute (w : world) :
  ∃ k, resumes handle execute k ∧
    start handle execute w =
      World (Cells St_loading None None (isMountedRef (store w))
               (asyncFunctionRef (store w)))
            (<[next w := k]> (pending w)) (finished w) (S (next w)).
Proof. eexists. split; [by exists (store w); repeat eexists|reflexivity]. Qed.

Lemma settle_execute (w : world) id k o :
  consistent w → pending w !! id = Some k →
  settle handle id o w =
    World (run (k o) (store w)).1.1 (delete id (pending w))
          (<[id := ends_with o (store w)]> (finished w)) (next w).
Proof.
  intros Hw Hk. destruct (Hw _ _ Hk) as [Hres _].
  unfold settle. rewrite Hk. destruct o as [r|v].
  - rewrite (resumed_fulfilled k r _ Hres). by destruct (isMountedRef _).
  - rewrite (resumed_rejected k v _ Hres).
    destruct (isMountedRef _); [|done]. by destruct (as_Error v).
Qed.

Lemma consistent_mount (f : Fn) : consistent (mount (T:=T) (V:=V) f).
Proof. intros id k Hk. cbn in Hk. by rewrite lookup_empty in Hk. Qed.

Lemma consistent_update (g : cells T Fn → cells T Fn) (w : world) :
  consistent w → consistent (update g w).
Proof. intros Hw id k Hk. exact (Hw id k Hk). Qed.

Lemma consistent_start (w : world) :
  consistent w → consistent (start handle execute w).
Proof.
  intros Hw id k. destruct (start_execute w) as (k' & Hres & ->).
  cbn [pending next]. rewrite lookup_insert. case_decide as Hid.
  - intros [= <-]. subst id. split; [done|lia].
  - intros Hk. destruct (Hw _ _ Hk). split; [done|lia].
Qed.

Lemma consistent_settle (w : world) id o :
  consistent w → consistent (settle handle id o w).
Proof.
  intros Hw. destruct (pending w !! id) as [k|] eqn:Hk.
  - rewrite (settle_execute w id k o Hw Hk). intros j kj Hj. cbn in Hj.
    rewrite lookup_delete in Hj. case_decide; [done|]. exact (Hw _ _ Hj).
  - unfold settle. by rewrite Hk.
Qed.

Lemma consistent_step (e : event T Fn V) (w : world) :
  consistent w → consistent (step e w).
Proof.
  intros Hw. destruct e as [f|[]| | | |id o]; cbn [step];
    auto using consistent_update, consistent_start, consistent_settle.
Qed.

Lemma consistent_run_events (evs : list (event T Fn V)) (w : world) :
  consistent w → consistent (run_events evs w).
Proof.
  revert w. induction evs as [|e evs IH]; intros w Hw; [done|].
  apply IH, consistent_step, Hw.
Qed.

(** A settlement that finds the component unmounted changes no cell. *)
Lemma settle_unmounted (w : world) id o :
  consistent w → isMountedRef (store w) = false →
  store (settle handle id o w) = store w.
Proof.
  intros Hw Hm. destruct (pending w !! id) as [k|] eqn:Hk.
  - rewrite (settle_execute w id k o Hw Hk). cbn [store].
    destruct (Hw _ _ Hk) as [Hres _]. destruct o as [r|v].
    + by rewrite (resumed_fulfilled k r _ Hres), Hm.
    + by rewrite (resumed_rejected k v _ Hres), Hm.
  - unfold settle. by rewrite Hk.
Qed.

(** *** What the events in between leave alone *)

Lemma run_events_app (evs1 evs2 : list (event T Fn V)) (w : world) :
  run_events (evs1 ++ evs2) w = run_events evs2 (run_events evs1 w).
Proof. apply foldl_app. Qed.

(** A call stays in flight until its own promise settles. *)
Lemma in_flight_step (e : event T Fn V) (w : world) id k :
  consistent w → pending w !! id = Some k → settles id e = false →
  pending (step e w) !! id = Some k.
Proof.
  intros Hw Hk He. destruct (Hw _ _ Hk) as [_ Hlt].
  assert (pending (start handle execute w) !! id = Some k) as Hstart.
  { destruct (start_execute w) as (k' & _ & ->). cbn [pending].
    rewrite lookup_insert_ne; [done|lia]. }
  destruct e as [f|[]| | | |j o]; cbn [step]; try done.
  cbn in He. apply bool_decide_eq_false in He.
  destruct (pending w !! j) as [kj|] eqn:Hj.
  - rewrite (settle_execute w j kj o Hw Hj). cbn [pending].
    by rewrite lookup_delete_ne.
  - unfold settle. by rewrite Hj.
Qed.

(** Only a failure that settles sets [error]. *)
Lemma error_step (e : event T Fn V) (w : world) :
  consistent w → error (store w) = None → is_failure e = false →
  error (store (step e w)) = None.
Proof.
  intros Hw Herr He.
  assert (error (store (start handle execute w)) = None) as Hstart.
  { by destruct (start_execute w) as (k' & _ & ->). }
  destruct e as [f|[]| | | |j [r|v]]; cbn [step]; try done.
  destruct (pending w !! j) as [kj|] eqn:Hj.
  - rewrite (settle_execute w j kj _ Hw Hj). cbn [store].
    destruct (Hw _ _ Hj) as [Hres _]. rewrite (resumed_fulfilled kj r _ Hres).
    by destruct (isMountedRef _).
  - unfold settle. by rewrite Hj.
Qed.

(** Only a success that settles sets [data]. *)
Lemma data_step (e : event T Fn V) (w : world) :
  consistent w → data (store w) = None → is_success e = false →
  data (store (step e w)) = None.
Proof.
  intros Hw Hdata He.
  assert (data (store (start handle execute w)) = None) as Hstart.
  { by destruct (start_execute w) as (k' & _ & ->). }
  destruct e as [f|[]| | | |j [r|v]]; cbn [step]; try done.
  destruct (pending w !! j) as [kj|] eqn:Hj.
  - rewrite (settle_execute w j kj _ Hw Hj). cbn [store].
    destruct (Hw _ _ Hj) as [Hres _]. rewrite (resumed_rejected kj v _ Hres).
    destruct (isMountedRef _); [|done]. by destruct (as_Error v).
  - unfold settle. by rewrite Hj.
Qed.

Lemma in_flight_run_events (evs : list (event T Fn V)) (w : world) id k :
  consistent w → pending w !! id = Some k →
  Forall (λ e, settles id e = false) evs →
  pending (run_events evs w) !! id = Some k.
Proof.
  revert w. induction evs as [|e evs IH]; intros w Hw Hk Hevs; [done|].
  inversion_clear Hevs as [|? ? He Hevs'].
  apply IH; auto using consistent_step, in_flight_step.
Qed.

Lemma error_run_events (evs : list (event T Fn V)) (w : world) :
  consistent w → error (store w) = None →
  Forall (λ e, is_failure e = false) evs →
  error (store (run_events evs w)) = None.
Proof.
  revert w. induction evs as [|e evs IH]; intros w Hw Herr Hevs; [done|].
  inversion_clear Hevs as [|? ? He Hevs'].
  apply IH; auto using consistent_step, error_step.
Qed.

Lemma data_run_events (evs : list (event T Fn V)) (w : world) :
  consistent w → data (store w) = None →
  Forall (λ e, is_success e = false) evs →
  data (store (run_events evs w)) = None.
Proof.
  revert w. induction evs as [|e evs IH]; intros w Hw Hdata Hevs; [done|].
  inversion_clear Hevs as [|? ? He Hevs'].
  apply IH; auto using consistent_step, data_step.
Qed.

Lemma step_calls_execute (e : event T Fn V) (w : world) :
  calls_execute e = true →
  ∃ w', step e w = start handle execute w' ∧ next w' = next w ∧
        (consistent w → consistent w').
Proof.
  destruct e as [f|[]| | | |j o]; try done; intros _.
  - by exists (update (set_isMountedRef true) w).
  - by exists w.
Qed.

(** A call of [execute] made by the event [e] after [evs0] is still in
    flight after [evs] when [evs] does not settle it; [error] is still
    [null] then when no failure settled, and [data] is when no success did. *)
Lemma call_in_flight
    (asyncFunction : Fn) (evs0 : list (event T Fn V)) (e : event T Fn V)
    (evs : list (event T Fn V)) :
  calls_execute e = true →
  Forall (λ e, settles (next (run_events evs0 (mount asyncFunction))) e = false) evs →
  ∃ k, resumes handle execute k ∧
    consistent (run_events (evs0 ++ e :: evs) (mount asyncFunction)) ∧
    pending (run_events (evs0 ++ e :: evs) (mount asyncFunction))
      !! next (run_events evs0 (mount asyncFunction)) = Some k ∧
    (Forall (λ e, is_failure e = false) evs →
     error (store (run_events (evs0 ++ e :: evs) (mount asyncFunction))) = None) ∧
    (Forall (λ e, is_success e = false) evs →
     data (store (run_events (evs0 ++ e :: evs) (mount asyncFunction))) = None).
Proof.
  intros He Hid. rewrite run_events_app.
  set (w0 := run_events evs0 (mount asyncFunction)) in *.
  assert (consistent w0) as Hw0 by apply consistent_run_events, consistent_mount.
  change (run_events (e :: evs) w0) with (run_events evs (step e w0)).
  destruct (step_calls_execute e w0 He) as (w0' & -> & Hnext & Hw0').
  rewrite <- Hnext in *. clear Hnext.
  specialize (Hw0' Hw0). pose proof (consistent_start w0' Hw0') as Hw1.
  destruct (start_execute w0') as (k & Hres & Hstart).
  set (w1 := start handle execute w0') in *.
  assert (pending w1 !! next w0' = Some k) as Hk.
  { rewrite Hstart. cbn [pending]. apply lookup_insert_eq. }
  exists k. split; [done|]. split; [by apply consistent_run_events|].
  split; [by apply in_flight_run_events|]. split; intros Hevs.
  - apply error_run_events; [done| |done]. by rewrite Hstart.
  - apply data_run_events; [done| |done]. by rewrite Hstart.
Qed.

(** *** The claims on [execute], [reset] and the returned object *)

(** C2.  Whatever happened to the component before, when the promise
    awaited by a call of [execute] settles (fulfilled or rejected) while
    [isMountedRef.current] is [false], [status], [data] and [error] are
    after the settlement what they were before it. *)
Theorem execute_settled_after_teardown
    (asyncFunction : Fn) (evs : list (event T Fn V)) id o :
  isMountedRef (store (run_events evs (mount asyncFunction))) = false →
  store (step (Settle id o) (run_events evs (mount asyncFunction)))
  = store (run_events evs (mount asyncFunction)).
Proof.
  intros Hm. cbn [step]. apply settle_unmounted; [|done].
  apply consistent_run_events, consistent_mount.
Qed.

(** C3, amended.  A call of [execute] is made by the event [e] after the
    events [evs0]; its async function fulfils with [r], which is not a
    function, after the events [evs], none of which is a failure of another
    call that settles, and the component is mounted then.  After the
    settlement [status] is ['success'], [data] is [r] ([null] when [r] is)
    and [error] is [null]. *)
Theorem execute_success
    (asyncFunction : Fn) (evs0 : list (event T Fn V)) (e : event T Fn V)
    (evs : list (event T Fn V)) r :
  calls_execute e = true →
  as_updater r = None →
  Forall (λ e, settles (next (run_events evs0 (mount asyncFunction))) e = false) evs →
  Forall (λ e, is_failure e = false) evs →
  isMountedRef
    (store (run_events (evs0 ++ e :: evs) (mount asyncFunction))) = true →
  ∃ f,
    store (run_events
             (evs0 ++ e :: evs ++
              [Settle (next (run_events evs0 (mount asyncFunction))) (Fulfilled r)])
             (mount asyncFunction))
    = Cells St_success (if is_null r then None else Some r) None true f.
Proof.
  intros He Hr Hid Hfail Hm.
  destruct (call_in_flight asyncFunction evs0 e evs He Hid)
    as (k & Hres & Hw & Hk & Herr & _).
  change (evs0 ++ e :: evs ++ ?l) with (evs0 ++ (e :: evs) ++ l).
  rewrite (assoc_L (++)), run_events_app.
  set (w := run_events (evs0 ++ e :: evs) (mount asyncFunction)) in *.
  exists (asyncFunctionRef (store w)).
  change (run_events [?e] w) with (step e w). cbn [step].
  rewrite (settle_execute w _ k _ Hw Hk). cbn [store].
  rewrite (resumed_fulfilled k r _ Hres), Hm, (Herr Hfail). cbn [fst set_state].
  by rewrite Hr.
Qed.


(** C5.  From any cells [h], a call of [execute] performs
    [setStatus('loading')], [setData(null)], [setError(null)] and then calls
    [asyncFunctionRef.current]; it is suspended on that call with [status]
    ['loading'], [data] [null] and [error] [null].  In the life of a
    component, whatever came before (a success too): right after an event
    that calls [execute] the cells show ['loading'], [null], [null], the
    component is given [loading = true], and the call is in flight. *)
Theorem execute_loading_first :
  (∀ h, ∃ k,
     run execute h =
       (Cells St_loading None None (isMountedRef h) (asyncFunctionRef h),
        [SetStatus St_loading; SetData None; SetError None; Get_asyncFunctionRef],
        Suspended (asyncFunctionRef h) k)) ∧
  (∀ (e : event T Fn V) (w : world),
     calls_execute e = true →
     status (store (step e w)) = St_loading ∧
     data (store (step e w)) = None ∧
     error (store (step e w)) = None ∧
     ret_loading (useAsync_return (store (step e w))) = true ∧
     ret_data (useAsync_return (store (step e w))) = None ∧
     is_Some (pending (step e w) !! next w)).
Proof.
  split.
  - apply run_execute.
  - intros e w He. destruct (step_calls_execute e w He) as (w' & -> & <- & _).
    destruct (start_execute w') as (k & _ & ->).
    cbn [store pending status data error]. repeat split.
    exists k. apply lookup_insert_eq.
Qed.

(** C6.  From any cells [h], with any status, data and error, [reset]
    leaves [status] ['idle'], [data] [null] and [error] [null]; so does a
    call of [reset] at any point in the life of a component. *)
Theorem reset_idle :
  (∀ h,
     run reset h =
       (Cells St_idle None None (isMountedRef h) (asyncFunctionRef h),
        [SetStatus St_idle; SetData None; SetError None], Returned ())) ∧
  (∀ (w : world),
     status (store (step Call_reset w)) = St_idle ∧
     data (store (step Call_reset w)) = None ∧
     error (store (step Call_reset w)) = None).
Proof. split; [reflexivity|]. intros w. by repeat split. Qed.

(** C7.  On every render the returned [loading] is [status === 'loading']
    of the returned [status], which is the [status] cell; the cells hold no
    [loading] of their own, so after every event of a component's life the
    returned [loading] is again computed from [status]. *)
Theorem loading_derived :
  (∀ h,
     ret_status (useAsync_return h) = status h ∧
     ret_data (useAsync_return h) = data h ∧
     ret_error (useAsync_return h) = error h ∧
     (ret_loading (useAsync_return h) = true
      ↔ ret_status (useAsync_return h) = St_loading)) ∧
  (∀ (e : event T Fn V) (w : world),
     ret_loading (useAsync_return (store (step e w)))
     = bool_decide (status (store (step e w)) = St_loading)).
Proof.
  split; [|done]. intros h. repeat split; cbn; [apply bool_decide_eq_true..].
Qed.

End UseAsyncFacts.

(** *** Scenarios, with numbers as data and strings as thrown values *)

Section UseAsyncScenarios.
Import UseAsync.

Local Abbreviation mount0 := (mount (T:=nat) (V:=string) ()).

(** The scenarios of the tests of the hook. *)
Example initialize_with_idle_state :
  useAsync_return (store mount0)
  = {| ret_data := None; ret_error := None; ret_status := St_idle;
       ret_loading := false |}.
Proof. reflexivity. Qed.

Example execute_immediately_by_default :
  ret_loading (useAsync_return (store (run_events [Effect true] mount0))) = true ∧
  useAsync_return (store (run_events [Effect true; Settle 0 (Fulfilled 7)] mount0))
  = {| ret_data := Some 7; ret_error := None; ret_status := St_success;
       ret_loading := false |}.
Proof. done. Qed.

Example handle_non_Error_thrown_values :
  useAsync_return (store (run_events
    [Effect false; Call_execute; Settle 0 (Rejected (non_Error "string error"))]
    mount0))
  = {| ret_data := None; ret_error := Some (new_Error "string error");
       ret_status := St_error; ret_loading := false |}.
Proof. reflexivity. Qed.

Example clear_previous_data_on_new_execution :
  data (store (run_events
    [Effect false; Call_execute; Settle 0 (Fulfilled 1)] mount0)) = Some 1 ∧
  useAsync_return (store (run_events
    [Effect false; Call_execute; Settle 0 (Fulfilled 1); Call_execute] mount0))
  = {| ret_data := None; ret_error := None; ret_status := St_loading;
       ret_loading := true |}.
Proof. done. Qed.

Example execute_multiple_times :
  data (store (run_events
    [Effect false; Call_execute; Settle 0 (Fulfilled 1);
     Call_execute; Settle 1 (Fulfilled 2)] mount0)) = Some 2.
Proof. reflexivity. Qed.

(** C2 on the scenario of the test "should not update state after unmount":
    [execute] is called, the component unmounts, the promise fulfils. *)
Lemma execute_settled_after_teardown_witness :
  isMountedRef (store (run_events [Effect false; Call_execute; Cleanup] mount0)) = false ∧
  store (step (Settle 0 (Fulfilled 5))
           (run_events [Effect false; Call_execute; Cleanup] mount0))
  = store (run_events [Effect false; Call_execute; Cleanup] mount0).
Proof.
  split; [reflexivity|].
  apply (execute_settled_after_teardown () [Effect false; Call_execute; Cleanup]).
  reflexivity.
Defined.

(** C3, amended, with a [reset] between the call and its settlement. *)
Lemma execute_success_witness :
  as_updater 5 = None ∧
  Forall (λ e, settles (next (run_events [Effect false] mount0)) e = false)
    [Call_reset : event nat () string] ∧
  Forall (λ e, is_failure e = false) [Call_reset : event nat () string] ∧
  isMountedRef
    (store (run_events ([Effect false] ++ Call_execute :: [Call_reset]) mount0)) = true ∧
  ∃ f,
    store (run_events
             ([Effect false] ++ Call_execute :: [Call_reset] ++
              [Settle (next (run_events [Effect false] mount0)) (Fulfilled 5)])
             mount0)
    = Cells St_success (Some 5) None true f.
Proof.
  assert (Forall (λ e, settles (next (run_events [Effect false] mount0)) e = false)
            [Call_reset : event nat () string]) as H1 by repeat constructor.
  assert (Forall (λ e, is_failure e = false) [Call_reset : event nat () string])
    as H2 by repeat constructor.
  split; [reflexivity|].
  split; [exact H1|]. split; [exact H2|]. split; [reflexivity|].
  assert (as_updater 5 = None) as H0 by reflexivity.
  apply (execute_success () [Effect false] Call_execute [Call_reset] 5
           eq_refl H0 H1 H2).
  reflexivity.
Defined.

(** C3 fails as it is stated, in two ways.  Two calls of [execute]
    overlap; the second fails with ["x"] and settles first, then the first
    fulfils with [5] while the component is mounted: [status] is
    ['success'] and [data] is [5], but [error] still holds the failure of
    the other call.  And a single call whose async function fulfils with
    the function [() => 7]: [setData] calls it as an updater, and [data] is
    [7], not the function. *)
Lemma execute_success_stale_error :
  (is_Some (pending
     (run_events [Effect false; Call_execute; Call_execute;
                  Settle 1 (Rejected (non_Error "x"))] mount0) !! 0) ∧
   isMountedRef (store
     (run_events [Effect false; Call_execute; Call_execute;
                  Settle 1 (Rejected (non_Error "x"))] mount0)) = true ∧
   store (run_events [Effect false; Call_execute; Call_execute;
                      Settle 1 (Rejected (non_Error "x"));
                      Settle 0 (Fulfilled 5)] mount0)
   = Cells St_success (Some 5) (Some (new_Error "x")) true () ∧
   error (store (run_events [Effect false; Call_execute; Call_execute;
                             Settle 1 (Rejected (non_Error "x"));
                             Settle 0 (Fulfilled 5)] mount0)) ≠ None) ∧
  (store (run_events [Effect false; Call_execute;
                      Settle 0 (Fulfilled (Function_returning 7))]
            (mount (V:=string) ()))
   = Cells St_success (Some (Number 7)) None true () ∧
   data (store (run_events [Effect false; Call_execute;
                            Settle 0 (Fulfilled (Function_returning 7))]
                  (mount (V:=string) ())))
   ≠ Some (Function_returning 7)).
Proof. split; [repeat split; [by eexists|done]|by split]. Qed.



End UseAsyncScenarios.

(** * Properties of [useCopyToClipboard] *)

Section UseCopyToClipboardFacts.
Import UseCopyToClipboard.
Context {V : Type} `{!Stringable V}.
Implicit Types (h : cells) (o : settled V unit) (text : string)
  (options : option (CopyOptions V)) (v : thrown V).

Local Abbreviation run := (Async.run (V:=V) (handle (V:=V))).
Local Abbreviation run_call := (Async.run_call (V:=V) (handle (V:=V))).

(** The call of [onError] that a failing branch makes when the callback is
    supplied, and how the branch ends: with [false], or with what the
    callback throws. *)
Local Abbreviation calls_onError options e text :=
  (match options ≫= onError with
   | Some cb => [Call_onError cb (Build_ErrorData e text)]
   | None => []
   end).
Local Abbreviation ends_onError options e text :=
  (match options ≫= onError with
   | Some cb =>
       match cb (Build_ErrorData e text) with
       | Returns => Returned false
       | Throws v => Threw v
       end
   | None => Returned false
   end).

(** The [catch] block on the value [v], after the actions [before] of the
    [try]: when [String(v)] throws, the block ends there, before any call
    of [onError]. *)
Local Abbreviation catch_block options text v h' before :=
  (match as_Error v with
   | Value e =>
       (Cells None (navigator h'),
        before ++ Console_warn "Copy failed" (Some v) :: SetCopiedText None ::
          calls_onError options e text,
        ends_onError options e text)
   | Thrown t =>
       (Cells None (navigator h'),
        before ++ [Console_warn "Copy failed" (Some v); SetCopiedText None],
        Threw t)
   end).

(** *** The ways through [copy] *)

Lemma run_copy_undeclared text options h :
  navigator h = Undeclared →
  run (copy text options) h =
    (h, [Get_navigator_clipboard], Threw (an_Error ReferenceError_navigator)).
Proof. destruct h as [ct nv]. cbn. by intros ->. Qed.

Lemma run_copy_missing text options h :
  navigator h = Without_clipboard →
  run (copy text options) h =
    (h,
     Get_navigator_clipboard :: Console_warn "Clipboard not supported" None ::
       calls_onError options (new_Error "Clipboard not supported") text,
     ends_onError options (new_Error "Clipboard not supported") text).
Proof.
  destruct h as [ct nv]. cbn. intros ->.
  unfold copy. cbn. destruct (options ≫= onError) as [cb|]; [|reflexivity].
  cbn. by destruct (cb _).
Qed.

Lemma copy_missing text options h o h' :
  navigator h ≠ With_clipboard →
  run_call (copy text options) h o h' = run (copy text options) h.
Proof.
  intros Hh. unfold Async.run_call. destruct (navigator h) eqn:Hn; [| |done].
  - by rewrite run_copy_undeclared.
  - rewrite run_copy_missing by done.
    destruct (options ≫= onError) as [cb|]; [|reflexivity]. by destruct (cb _).
Qed.

(** With the clipboard there, [copy] is suspended on [writeText(text)]
    before it has done anything else. *)
Lemma run_copy_present text options h :
  navigator h = With_clipboard →
  ∃ k, run (copy text options) h = (h, [Get_navigator_clipboard], Suspended text k).
Proof. destruct h as [ct nv]. cbn. intros ->. eexists. reflexivity. Qed.

Lemma copy_failure text options h v h' :
  navigator h = With_clipboard →
  run_call (copy text options) h (Rejected v) h' =
    catch_block options text v h' [Get_navigator_clipboard].
Proof.
  destruct h as [ct nv], h' as [ct' nv']. cbn. intros ->.
  unfold Async.run_call, copy. cbn. destruct (as_Error v) as [e|t]; [|reflexivity].
  cbn. destruct (options ≫= onError) as [cb|]; [|reflexivity].
  cbn. by destruct (cb _).
Qed.

Lemma copy_success text options h u h' :
  navigator h = With_clipboard →
  (∀ cb, options ≫= onSuccess = Some cb → cb (Build_SuccessData text) = Returns) →
  run_call (copy text options) h (Fulfilled u) h' =
    (Cells (Some text) (navigator h'),
     Get_navigator_clipboard :: SetCopiedText (Some text) ::
       match options ≫= onSuccess with
       | Some cb => [Call_onSuccess cb (Build_SuccessData text)]
       | None => []
       end,
     Returned true).
Proof.
  destruct h as [ct nv], h' as [ct' nv']. cbn. intros -> Hret.
  unfold Async.run_call, copy. cbn.
  destruct (options ≫= onSuccess) as [cb|]; [|reflexivity].
  cbn. by rewrite (Hret cb eq_refl).
Qed.

(** What [onSuccess] throws is caught by the [catch] of the write. *)
Lemma copy_success_thrown text options h u h' cb v :
  navigator h = With_clipboard →
  options ≫= onSuccess = Some cb → cb (Build_SuccessData text) = Throws v →
  run_call (copy text options) h (Fulfilled u) h' =
    catch_block options text v h'
      [Get_navigator_clipboard; SetCopiedText (Some text);
       Call_onSuccess cb (Build_SuccessData text)].
Proof.
  destruct h as [ct nv], h' as [ct' nv']. cbn. intros -> Hs Hcb.
  unfold Async.run_call, copy. cbn. rewrite Hs. cbn. rewrite Hcb. cbn.
  destruct (as_Error v) as [e|t]; [|reflexivity].
  cbn. destruct (options ≫= onError) as [cbe|]; [|reflexivity].
  cbn. by destruct (cbe _).
Qed.

(** The ways through a call of [copy]: [navigator] is not declared; there
    is no clipboard; the write fails; the write succeeds and [onSuccess],
    if any, returns; the write succeeds and [onSuccess] throws. *)
Lemma copy_cases text options h o h' :
  (navigator h = Undeclared ∧
   run_call (copy text options) h o h' =
     (h, [Get_navigator_clipboard], Threw (an_Error ReferenceError_navigator))) ∨
  (navigator h = Without_clipboard ∧
   run_call (copy text options) h o h' =
     (h,
      Get_navigator_clipboard :: Console_warn "Clipboard not supported" None ::
        calls_onError options (new_Error "Clipboard not supported") text,
      ends_onError options (new_Error "Clipboard not supported") text)) ∨
  (∃ v, navigator h = With_clipboard ∧ o = Rejected v ∧
   run_call (copy text options) h o h' =
     catch_block options text v h' [Get_navigator_clipboard]) ∨
  (∃ u, navigator h = With_clipboard ∧ o = Fulfilled u ∧
   (∀ cb, options ≫= onSuccess = Some cb → cb (Build_SuccessData text) = Returns) ∧
   run_call (copy text options) h o h' =
     (Cells (Some text) (navigator h'),
      Get_navigator_clipboard :: SetCopiedText (Some text) ::
        match options ≫= onSuccess with
        | Some cb => [Call_onSuccess cb (Build_SuccessData text)]
        | None => []
        end,
      Returned true)) ∨
  (∃ u cb v, navigator h = With_clipboard ∧ o = Fulfilled u ∧
   options ≫= onSuccess = Some cb ∧ cb (Build_SuccessData text) = Throws v ∧
   run_call (copy text options) h o h' =
     catch_block options text v h'
       [Get_navigator_clipboard; SetCopiedText (Some text);
        Call_onSuccess cb (Build_SuccessData text)]).
Proof.
  destruct (navigator h) eqn:Hh.
  - left. split; [done|]. rewrite copy_missing by congruence.
    by apply run_copy_undeclared.
  - right. left. split; [done|]. rewrite copy_missing by congruence.
    by apply run_copy_missing.
  - do 2 right. destruct o as [u|v].
    + right. destruct (options ≫= onSuccess) as [cb|] eqn:Hs.
      * destruct (cb (Build_SuccessData text)) as [|v] eqn:Hcb.
        -- left. exists u. repeat (split; [congruence|]).
           rewrite copy_success; [by rewrite Hs|done|]. rewrite Hs. congruence.
        -- right. exists u, cb, v. repeat (split; [done|]).
           by apply copy_success_thrown.
      * left. exists u. repeat (split; [congruence|]).
        rewrite copy_success; [by rewrite Hs|done|]. by rewrite Hs.
    + left. exists v. repeat (split; [done|]). by apply copy_failure.
Qed.

(** *** The claims on [copy] *)

(** C1, amended.  What a call of [copy] does to [copiedText], from the
    state [h] in which it is made to its end ([o] is how the write settles
    and [h'] the state at that moment).  Without the clipboard it assigns
    nothing and [copiedText] is left as it was.  When the write fails it
    assigns [null], and [copiedText] is [null] at the end.  Only when the
    write succeeds does it assign [text], and [copiedText] is [text] at the
    end when [onSuccess] is not supplied or returns. *)
Theorem copy_copiedText text options h o h' :
  ∃ h2 tr c,
    run_call (copy text options) h o h' = (h2, tr, c) ∧
    match branch_of (navigator h) o with
    | Capability_missing => writes tr = [] ∧ copiedText h2 = copiedText h
    | Write_failure => writes tr = [None] ∧ copiedText h2 = None
    | Write_success =>
        writes tr !! 0 = Some (Some text) ∧
        (returns (options ≫= onSuccess) →
         writes tr = [Some text] ∧ copiedText h2 = Some text)
    end.
Proof.
  destruct (copy_cases text options h o h')
    as [(Hh & Hrun)|[(Hh & Hrun)|[(v & Hh & -> & Hrun)|
        [(u & Hh & -> & _ & Hrun)|(u & cb & v & Hh & -> & Hs & Hcb & Hrun)]]]];
    rewrite Hh; cbn [branch_of].
  - do 3 eexists. by split.
  - do 3 eexists. split; [done|]. by destruct (options ≫= onError).
  - destruct (as_Error v); do 3 eexists; (split; [done|]);
      by destruct (options ≫= onError).
  - do 3 eexists. split; [done|]. by destruct (options ≫= onSuccess).
  - destruct (as_Error v); do 3 eexists; (split; [done|]);
      (split; [done|]); intros Hret; by rewrite (Hret cb _ Hs) in Hcb.
Qed.

(** C8, amended.  A call of [copy] made while there is no clipboard ends
    at once, calls no [onSuccess], changes no cell and is not suspended on
    any write.  Where [navigator] is declared, it warns, calls [onError],
    when supplied, once with [new Error('Clipboard not supported')] and the
    text, and resolves to [false] when [onError] is not supplied or
    returns; what [onError] throws rejects it.  Where [navigator] is not
    declared, reading it throws: the call is rejected with the
    [ReferenceError] and [onError] is not called. *)
Theorem copy_without_clipboard text options h :
  navigator h ≠ With_clipboard →
  ∃ tr c,
    run (copy text options) h = (h, tr, c) ∧
    times is_Call_onSuccess tr = 0 ∧
    match navigator h with
    | Undeclared =>
        times is_Call_onError tr = 0 ∧
        c = Threw (an_Error ReferenceError_navigator)
    | _ =>
        match options ≫= onError with
        | Some cb =>
            List.filter is_Call_onError tr
            = [Call_onError cb
                 (Build_ErrorData (new_Error "Clipboard not supported") text)] ∧
            c = match cb (Build_ErrorData (new_Error "Clipboard not supported") text) with
                | Returns => Returned false
                | Throws v => Threw v
                end
        | None => times is_Call_onError tr = 0 ∧ c = Returned false
        end
    end.
Proof.
  intros Hh. destruct (navigator h) eqn:Hn; [| |done].
  - do 2 eexists. split; [by apply run_copy_undeclared|]. done.
  - do 2 eexists. split; [by apply run_copy_missing|].
    by destruct (options ≫= onError).
Qed.



End UseCopyToClipboardFacts.


(** *** Scenarios, with strings as thrown values *)

Section UseCopyToClipboardScenarios.
Import UseCopyToClipboard.

Local Abbreviation mount0 := (mount (V:=string)).
Local Abbreviation handle0 := (handle (V:=string)).

(** Callbacks that return, as the mocks of the tests do, and a callback
    that throws. *)
Local Abbreviation returning :=
  (Some {| onSuccess := Some (λ _, Returns); onError := Some (λ _, Returns) |}
   : option (CopyOptions string)).
Local Abbreviation onError_throws :=
  (Some {| onSuccess := None; onError := Some (λ _, Throws (non_Error "boom")) |}
   : option (CopyOptions string)).
Local Abbreviation onSuccess_throws :=
  (Some {| onSuccess := Some (λ _, Throws (non_Error "boom"));
           onError := Some (λ _, Returns) |}
   : option (CopyOptions string)).

(** The same callbacks where [Object.create(null)] can be thrown. *)
Local Abbreviation returning' :=
  (Some {| onSuccess := Some (λ _, Returns); onError := Some (λ _, Returns) |}
   : option (CopyOptions sample)).

(** The scenarios of the tests of the hook. *)
Example copy_to_the_clipboard_and_the_state :
  copiedText (store (mount0 With_clipboard)) = None ∧
  copiedText (store (run_events
    [Call_copy "Test value" None; Settle 0 (Fulfilled ())] (mount0 With_clipboard)))
  = Some "Test value" ∧
  finished (run_events
    [Call_copy "Test value" None; Settle 0 (Fulfilled ())] (mount0 With_clipboard)) !! 0
  = Some (Fulfilled true).
Proof. done. Qed.

Example convert_non_Error_objects_to_Error :
  (Async.run_call handle0 (copy "Test value" returning) (Cells None With_clipboard)
     (Rejected (non_Error "string error")) (Cells None With_clipboard)).1.2 !! 3
  = Some (Call_onError (λ _, Returns)
            (Build_ErrorData (new_Error "string error") "Test value")).
Proof. reflexivity. Qed.

(** C1 fails as it is stated.  ["old"] is copied; then a write of ["new"]
    fails: [copiedText] was ["old"] and is cleared to [null], not left
    unchanged.  And when the clipboard is taken away after ["old"] was
    copied, a call of [copy] leaves [copiedText] at ["old"]: it is not reset
    to [null]. *)
Lemma copy_failure_clears_copiedText :
  copiedText (store (run_events
    [Call_copy "old" None; Settle 0 (Fulfilled ())] (mount0 With_clipboard)))
  = Some "old" ∧
  copiedText (store (run_events
    [Call_copy "old" None; Settle 0 (Fulfilled ());
     Call_copy "new" None; Settle 1 (Rejected (non_Error "denied"))]
    (mount0 With_clipboard))) = None ∧
  copiedText (store (run_events
    [Call_copy "old" None; Settle 0 (Fulfilled ());
     Platform Without_clipboard; Call_copy "new" None] (mount0 With_clipboard)))
  = Some "old".
Proof. done. Qed.

(** C8, amended, on the test "should call onError callback when clipboard
    is not supported". *)
Lemma copy_without_clipboard_witness :
  navigator (Cells None Without_clipboard) ≠ With_clipboard ∧
  ∃ tr c,
    Async.run handle0 (copy "Test value" returning) (Cells None Without_clipboard)
    = (Cells None Without_clipboard, tr, c) ∧
    times is_Call_onSuccess tr = 0 ∧
    match returning ≫= onError with
    | Some cb =>
        List.filter is_Call_onError tr
        = [Call_onError cb
             (Build_ErrorData (new_Error "Clipboard not supported") "Test value")] ∧
        c = match cb (Build_ErrorData (new_Error "Clipboard not supported") "Test value") with
            | Returns => Returned false
            | Throws v => Threw v
            end
    | None => times is_Call_onError tr = 0 ∧ c = Returned false
    end.
Proof.
  assert (navigator (Cells None Without_clipboard) ≠ With_clipboard) as H by done.
  split; [exact H|].
  exact (copy_without_clipboard (V:=string) "Test value" returning
           (Cells None Without_clipboard) H).
Defined.

(** C8 fails as it is stated, in two ways.  With [navigator] declared
    and without a clipboard, with an [onError] that throws, the call does
    not resolve to [false]: its promise is rejected with what the callback
    threw.  And where [navigator] is not declared, the call is rejected
    with the [ReferenceError] and has not called the [onError] it was
    given. *)
Lemma copy_without_clipboard_rejects :
  (finished (run_events [Call_copy "Test value" onError_throws]
               (mount0 Without_clipboard)) !! 0
   = Some (Rejected (non_Error "boom")) ∧
   finished (run_events [Call_copy "Test value" onError_throws]
               (mount0 Without_clipboard)) !! 0
   ≠ Some (Fulfilled false)) ∧
  (finished (run_events [Call_copy "Test value" returning] (mount0 Undeclared)) !! 0
   = Some (Rejected (an_Error ReferenceError_navigator)) ∧
   times is_Call_onError
     (Async.run handle0 (copy "Test value" returning) (Cells None Undeclared)).1.2
   = 0).
Proof. done. Qed.





End UseCopyToClipboardScenarios.

(** * More on [useAsync]: renders, unmounting, and what the cells keep *)

Section UseAsyncLifeFacts.
Import UseAsync UseAsyncLife.
Context {T Fn V : Type} `{!Stringable V} `{!Storable T}.
Implicit Types (h : cells T Fn) (r : T) (v : thrown V) (o : settled V T)
  (e : event T Fn V) (evs : list (event T Fn V)).

Local Abbreviation world :=
  (Async.world (V:=V) (action T) result Fn T (cells T Fn) unit).

(** What each event does to the cells. *)
Lemma store_step e (w : world) :
  consistent w →
  store (step e w) =
    match e with
    | Render f => set_asyncFunctionRef f (store w)
    | Effect true =>
        Cells St_loading None None true (asyncFunctionRef (store w))
    | Effect false => set_isMountedRef true (store w)
    | Cleanup => set_isMountedRef false (store w)
    | Call_execute =>
        Cells St_loading None None (isMountedRef (store w))
          (asyncFunctionRef (store w))
    | Call_reset =>
        Cells St_idle None None (isMountedRef (store w))
          (asyncFunctionRef (store w))
    | Settle id o =>
        match pending w !! id with
        | Some _ =>
            if isMountedRef (store w) then
              match o with
              | Fulfilled r =>
                  Cells St_success (set_state (data (store w)) (Some r))
                    (error (store w)) true (asyncFunctionRef (store w))
              | Rejected v =>
                  match as_Error v with
                  | Value e =>
                      Cells St_error (data (store w)) (Some e) true
                        (asyncFunctionRef (store w))
                  | Thrown _ => store w
                  end
              end
            else store w
        | None => store w
        end
    end.
Proof.
  intros Hw. destruct e as [f|[]| | | |id o]; try reflexivity.
  cbn [step]. destruct (pending w !! id) as [k|] eqn:Hk.
  - rewrite (settle_execute w id k o Hw Hk). cbn [store].
    destruct (Hw _ _ Hk) as [Hres _]. destruct o as [r|v].
    + rewrite (resumed_fulfilled k r _ Hres). by destruct (isMountedRef _).
    + rewrite (resumed_rejected k v _ Hres).
      destruct (isMountedRef _); [|done]. by destruct (as_Error v).
  - unfold settle. by rewrite Hk.
Qed.

Lemma latest_run_events evs (w : world) :
  consistent w →
  asyncFunctionRef (store (run_events evs w)) = latest (asyncFunctionRef (store w)) evs.
Proof.
  revert w. induction evs as [|e evs IH]; intros w Hw; [done|].
  cbn [run_events latest foldl]. fold (run_events evs (step e w)).
  fold (latest (match e with Render g => g | _ => asyncFunctionRef (store w) end) evs).
  rewrite IH by by apply consistent_step. f_equal.
  rewrite store_step by done.
  destruct e as [f|[]| | | |id o]; try reflexivity.
  destruct (pending w !! id); [|done].
  destruct (isMountedRef (store w)), o as [r|v]; try done.
  by destruct (as_Error v).
Qed.

(** The test "should use the latest async function".  Whatever happened
    since the first render, a call of [execute] calls the async function
    that the latest render passed to the hook, not an earlier one. *)
Theorem execute_calls_latest (asyncFunction : Fn) evs :
  ∃ k, (run handle execute (store (run_events evs (mount asyncFunction)))).2
       = Suspended (latest asyncFunction evs) k.
Proof.
  destruct (run_execute (store (run_events evs (mount (V:=V) asyncFunction))))
    as [k Hk].
  exists k. rewrite Hk. cbn [snd]. f_equal.
  by rewrite latest_run_events by apply consistent_mount.
Qed.

Lemma coherent_step e (w : world) :
  consistent w → coherent (store w) → coherent (store (step e w)).
Proof.
  intros Hw Hc. rewrite store_step by done. unfold coherent in *.
  destruct e as [f|[]| | | |id o]; try done.
  destruct (pending w !! id); [|done].
  destruct (isMountedRef (store w)); [|done]. destruct o as [r|v]; [done|].
  destruct (as_Error v); cbn; eauto.
Qed.

(** Through renders, effects, resets and calls that overlap, whatever the
    async functions give or throw, [status] keeps telling what the other
    cells hold: on ['idle'] and ['loading'] [data] and [error] are [null],
    and on ['error'] [error] holds an [Error]. *)
Theorem status_coherent (asyncFunction : Fn) evs :
  coherent (store (run_events evs (mount (V:=V) asyncFunction))).
Proof.
  assert (∀ (w : world), consistent w → coherent (store w) →
            coherent (store (run_events evs w))) as Hgen.
  { induction evs as [|e evs IH]; intros w Hw Hc; [done|].
    apply IH; [by apply consistent_step|by apply coherent_step]. }
  apply Hgen; [apply consistent_mount|]. by split.
Qed.

(** What the settlement of a call in flight does while the component is
    mounted, whatever else is going on.  A result that is not a function is
    put in [data] with [status] ['success'], and [error] is left as it is.
    A failure that is an [Error], or that [String] converts, is put in
    [error] with [status] ['error'], and [data] is left as it is.  In both
    cases the call has returned.  A failure on which [String] throws
    changes no cell, and the call is rejected with what [String] threw. *)
Theorem settlement_frame (asyncFunction : Fn) evs id o :
  is_Some (pending (run_events evs (mount asyncFunction)) !! id) →
  isMountedRef (store (run_events evs (mount asyncFunction))) = true →
  (∀ r, o = Fulfilled r → as_updater r = None) →
  store (step (Settle id o) (run_events evs (mount asyncFunction)))
  = match o with
    | Fulfilled r =>
        Cells St_success (if is_null r then None else Some r)
          (error (store (run_events evs (mount asyncFunction)))) true
          (asyncFunctionRef (store (run_events evs (mount asyncFunction))))
    | Rejected v =>
        match as_Error v with
        | Value e =>
            Cells St_error (data (store (run_events evs (mount asyncFunction))))
              (Some e) true
              (asyncFunctionRef (store (run_events evs (mount asyncFunction))))
        | Thrown _ => store (run_events evs (mount asyncFunction))
        end
    end ∧
  pending (step (Settle id o) (run_events evs (mount asyncFunction))) !! id = None ∧
  finished (step (Settle id o) (run_events evs (mount asyncFunction))) !! id
  = Some match o with
         | Fulfilled _ => Fulfilled ()
         | Rejected v =>
             match as_Error v with
             | Value _ => Fulfilled ()
             | Thrown t => Rejected t
             end
         end.
Proof.
  set (w := run_events evs (mount asyncFunction)).
  assert (consistent w) as Hw by apply consistent_run_events, consistent_mount.
  intros [k Hk] Hm Hr. split.
  - rewrite store_step by done. rewrite Hk, Hm. destruct o as [r|v]; [|done].
    cbn [set_state]. by rewrite (Hr r eq_refl).
  - cbn [step]. rewrite (settle_execute w id k o Hw Hk). cbn [pending finished].
    rewrite lookup_delete_eq, lookup_insert_eq, Hm. by destruct o.
Qed.

(** Once the effect is cleaned up, the promises that settle afterwards, as
    many as there are, leave every cell as the unmounting left it. *)
Theorem settlements_after_cleanup (asyncFunction : Fn) evs0 evs :
  Forall (λ e, is_settlement e = true) evs →
  store (run_events (evs0 ++ Cleanup :: evs) (mount asyncFunction))
  = store (run_events (evs0 ++ [Cleanup]) (mount asyncFunction)).
Proof.
  intros Hevs.
  change (evs0 ++ Cleanup :: evs) with (evs0 ++ [Cleanup] ++ evs).
  rewrite (assoc_L (++)), run_events_app.
  set (w := run_events (evs0 ++ [Cleanup]) (mount asyncFunction)).
  assert (consistent w) as Hw by apply consistent_run_events, consistent_mount.
  assert (isMountedRef (store w) = false) as Hm.
  { unfold w. rewrite run_events_app.
    change (run_events [Cleanup] ?w0) with (step (T:=T) (V:=V) Cleanup w0).
    by rewrite store_step by apply consistent_run_events, consistent_mount. }
  clearbody w. revert w Hw Hm.
  induction Hevs as [|e evs He _ IH]; intros w Hw Hm; [done|].
  destruct e as [f|[]| | | |id o]; try done.
  change (run_events (Settle id o :: evs) w)
    with (run_events evs (step (Settle id o) w)).
  assert (store (step (Settle id o) w) = store w) as Hs
    by by apply settle_unmounted.
  rewrite IH; [done|by apply consistent_step|by rewrite Hs].
Qed.

(** [reset] does not cancel a call in flight: when its promise settles
    after the reset, with the component mounted, the cells leave ['idle']
    again for the result of that call (when it is not a function) or for
    its failure (when it is an [Error] or [String] converts it); only a
    failure on which [String] throws leaves them at ['idle']. *)
Theorem reset_does_not_cancel (asyncFunction : Fn) evs id o :
  is_Some (pending (run_events evs (mount asyncFunction)) !! id) →
  isMountedRef (store (run_events evs (mount asyncFunction))) = true →
  (∀ r, o = Fulfilled r → as_updater r = None) →
  store (run_events (evs ++ [Call_reset; Settle id o]) (mount asyncFunction))
  = match o with
    | Fulfilled r =>
        Cells St_success (if is_null r then None else Some r) None true
          (asyncFunctionRef (store (run_events evs (mount asyncFunction))))
    | Rejected v =>
        match as_Error v with
        | Value e =>
            Cells St_error None (Some e) true
              (asyncFunctionRef (store (run_events evs (mount asyncFunction))))
        | Thrown _ =>
            Cells St_idle None None true
              (asyncFunctionRef (store (run_events evs (mount asyncFunction))))
        end
    end.
Proof.
  rewrite run_events_app.
  set (w := run_events evs (mount asyncFunction)).
  assert (consistent w) as Hw by apply consistent_run_events, consistent_mount.
  intros [k Hk] Hm Hr.
  change (run_events [Call_reset; Settle id o] w)
    with (step (Settle id o) (step Call_reset w)).
  rewrite store_step by by apply consistent_step.
  change (pending (step Call_reset w)) with (pending w). rewrite Hk.
  rewrite (store_step Call_reset) by done. cbn. rewrite Hm.
  destruct o as [r|v]; [by rewrite (Hr r eq_refl)|]. by destruct (as_Error v).
Qed.

(** *** Counting the calls *)

Lemma next_step e (w : world) :
  next (step e w) = next w + (if calls_execute e then 1 else 0).
Proof.
  destruct e as [f|[]| | | |id o]; cbn [step calls_execute];
    try (destruct (start_execute w) as (k & _ & ->));
    try (destruct (start_execute (update (set_isMountedRef true) w)) as (k & _ & ->));
    cbn [next update]; try lia.
  unfold settle. destruct (pending w !! id) as [k|]; [|lia].
  destruct (Async.run handle (k o) (store w)) as [[s tr] [r|v|c k']];
    cbn [deliver next]; lia.
Qed.

Lemma accounted_start (w : world) :
  consistent w → accounted w → accounted (start handle execute w).
Proof.
  intros Hw [Hfin Hsize]. destruct (start_execute w) as (k & _ & ->).
  assert (pending w !! next w = None) as Hfresh.
  { destruct (pending w !! next w) as [k'|] eqn:Hk'; [|done].
    destruct (Hw _ _ Hk') as [_ ?]. lia. }
  split; cbn [pending finished next].
  - intros id r Hr. destruct (Hfin id r Hr) as (Hlt & Hid).
    split; [lia|]. rewrite lookup_insert_ne; [done|lia].
  - rewrite map_size_insert_None by done. lia.
Qed.

Lemma accounted_step e (w : world) :
  consistent w → accounted w → accounted (step e w).
Proof.
  intros Hw Hacc. destruct e as [f|[]| | | |id o]; cbn [step]; try done.
  - by apply accounted_start.
  - by apply accounted_start.
  - destruct (pending w !! id) as [k|] eqn:Hk.
    + rewrite (settle_execute w id k o Hw Hk). destruct Hacc as [Hfin Hsize].
      assert (finished w !! id = None) as Hnew.
      { destruct (finished w !! id) as [r|] eqn:Hr; [|done].
        destruct (Hfin id r Hr) as (_ & Hnone). congruence. }
      split; cbn [pending finished next].
      * intros j r. rewrite lookup_insert. case_decide as Hj.
        -- intros _. subst j.
           split; [by destruct (Hw _ _ Hk)|apply lookup_delete_eq].
        -- intros Hr. destruct (Hfin j r Hr) as (Hlt & Hnone).
           split; [done|]. by rewrite lookup_delete_ne.
      * rewrite map_size_delete_Some, map_size_insert_None by eauto.
        pose proof (map_size_ne_0_lookup_2 (pending w) id (mk_is_Some _ _ Hk)). lia.
    + unfold settle. by rewrite Hk.
Qed.

(** How a call of [execute] can have ended: it returned, or its async
    function failed with a value on which [String] threw, and it was
    rejected with what [String] threw. *)
Lemma ended_step evs e (w : world) :
  consistent w →
  (∀ id res, finished w !! id = Some res →
     res = Fulfilled () ∨
     ∃ x t, res = Rejected t ∧ Settle id (Rejected (non_Error x)) ∈ evs ∧
            js_String x = Thrown t) →
  ∀ id res, finished (step e w) !! id = Some res →
    res = Fulfilled () ∨
    ∃ x t, res = Rejected t ∧ Settle id (Rejected (non_Error x)) ∈ evs ++ [e] ∧
           js_String x = Thrown t.
Proof.
  intros Hw IH.
  assert (∀ id res, finished w !! id = Some res →
            res = Fulfilled () ∨
            ∃ x t, res = Rejected t ∧
                   Settle id (Rejected (non_Error x)) ∈ evs ++ [e] ∧
                   js_String x = Thrown t) as IH'.
  { intros id res Hres. destruct (IH id res Hres) as [->|(x & t & -> & Hin & Hx)];
      [by left|]. right. exists x, t. split; [done|]. split; [|done].
    apply elem_of_app. by left. }
  assert (∀ w' : world, finished (start handle execute w') = finished w') as Hstart.
  { intros w'. by destruct (start_execute w') as (k & _ & ->). }
  destruct e as [f|[]| | | |j o]; cbn [step]; rewrite ?Hstart; try done.
  destruct (pending w !! j) as [k|] eqn:Hk; [|unfold settle; by rewrite Hk].
  rewrite (settle_execute w j k o Hw Hk). cbn [finished].
  intros id res. rewrite lookup_insert. case_decide as Hj; [|by apply IH'].
  subst id. intros [= <-]. destruct o as [r|v]; [by left|].
  destruct (isMountedRef (store w)); [|by left].
  destruct v as [err|x]; cbn; [by left|].
  destruct (js_String x) as [s|t] eqn:Hx; [by left|].
  right. exists x, t. split; [done|]. split; [|done].
  apply elem_of_app. right. by apply list_elem_of_singleton.
Qed.

(** Every call of [execute], by the component or by the effect, is either
    waiting for its async function or has ended, never both: none is lost
    and none is counted twice.  A call that ended has returned, unless its
    async function failed with a value on which [String] threw: that call
    was rejected with what [String] threw. *)
Theorem calls_accounted (asyncFunction : Fn) evs :
  size (pending (run_events evs (mount asyncFunction)))
  + size (finished (run_events evs (mount asyncFunction)))
  = length (List.filter calls_execute evs) ∧
  ∀ id res,
    finished (run_events evs (mount asyncFunction)) !! id = Some res →
    pending (run_events evs (mount asyncFunction)) !! id = None ∧
    (res = Fulfilled () ∨
     ∃ x t, res = Rejected t ∧ Settle id (Rejected (non_Error x)) ∈ evs ∧
            js_String x = Thrown t).
Proof.
  assert (∀ (w : world), consistent w → accounted w →
            accounted (run_events evs w) ∧
            next (run_events evs w) = next w + length (List.filter calls_execute evs))
    as Hgen.
  { induction evs as [|e evs IH]; intros w Hw Hacc; [split; [done|cbn; lia]|].
    destruct (IH (step e w)) as [Hacc' Hnext];
      [by apply consistent_step|by apply accounted_step|].
    split; [done|]. change (run_events (e :: evs) w) with (run_events evs (step e w)).
    rewrite Hnext, next_step. cbn [List.filter]. destruct (calls_execute e); cbn; lia. }
  destruct (Hgen (mount asyncFunction)) as [[Hfin Hsize] Hnext].
  { apply consistent_mount. }
  { split; [|done]. intros id r Hr. cbn in Hr. by rewrite lookup_empty in Hr. }
  split; [by rewrite Hsize, Hnext|].
  intros id res Hres. split; [by destruct (Hfin id res Hres)|].
  clear Hgen Hfin Hsize Hnext. revert id res Hres.
  induction evs as [|e evs IH] using rev_ind.
  { intros id res Hres. cbn in Hres. by rewrite lookup_empty in Hres. }
  rewrite run_events_app.
  change (run_events [e] ?w) with (step e w).
  apply ended_step; [apply consistent_run_events, consistent_mount|done].
Qed.

(** The test "should execute async function immediately by default".
    Mounted without options, or with [immediate] left out or [true], the
    hook has called the async function once and shows ['loading']; when
    that call fulfils with an [r] that is not a function the cells show
    ['success'] and [r].  Mounted with [immediate: false] it has called
    nothing and shows ['idle']. *)
Theorem mounted_immediate (asyncFunction : Fn) (options : option UseAsyncOptions) :
  if decide (options ≫= immediate = Some false) then
    store (mounted (V:=V) asyncFunction options)
    = Cells (T:=T) St_idle None None true asyncFunction ∧
    next (mounted (T:=T) (V:=V) asyncFunction options) = 0 ∧
    ∀ id, pending (mounted (T:=T) (V:=V) asyncFunction options) !! id = None
  else
    store (mounted (V:=V) asyncFunction options)
    = Cells (T:=T) St_loading None None true asyncFunction ∧
    next (mounted (T:=T) (V:=V) asyncFunction options) = 1 ∧
    (∃ k, (Async.run handle execute (store (mount (T:=T) (V:=V) asyncFunction))).2
          = Suspended asyncFunction k) ∧
    ∀ r, as_updater r = None →
         store (step (Settle 0 (Fulfilled r)) (mounted (V:=V) asyncFunction options))
         = Cells St_success (if is_null r then None else Some r) None true
             asyncFunction.
Proof.
  assert (∀ r, as_updater r = None →
            (if is_null r then None else Some r) = set_state None (Some r)) as Hset.
  { intros r Hr. unfold set_state. by rewrite Hr. }
  destruct options as [[[[]|]]|]; cbn -[set_state]; repeat split; eauto;
    intros r Hr; by rewrite (Hset r Hr).
Qed.

End UseAsyncLifeFacts.

(** * The demo of [useAsync] *)

Section UseAsyncDemoFacts.
Import UseAsync UseAsyncDemo.

Local Abbreviation world :=
  (Async.world (V:=string) (action (User safe_integer)) result unit (User safe_integer)
     (cells (User safe_integer) unit) unit).

(** [fetchUser(1)], the two ways it ends. *)
Lemma fetchUser_one (above : bool) :
  fetchUser (V:=string) one above =
    if above then Rejected (an_Error (new_Error "Failed to fetch user data"))
    else Fulfilled {| user_id := one; user_name := "User 1";
                      user_email := "user1@example.com" |}.
Proof. by destruct above. Qed.

Lemma steady_mount : steady demo_mount.
Proof. split; [|by split]. apply consistent_step, consistent_mount. Qed.

Lemma steady_step (e : happening) (w : world) :
  is_Click_reset e = false → steady w → steady (demo_step e w).
Proof.
  intros He (Hw & Hm & Hst). destruct e as [| |id above]; [|done|]; cbn [demo_step].
  - cbn [Component fetch_disabled useAsync_return ret_loading].
    case_bool_decide as Hl; [by split|].
    assert (∀ j, pending w !! j = None) as Hnone.
    { destruct (status (store w)); [|by destruct Hl| |];
        by destruct Hst as (_ & _ & ?). }
    split; [by apply consistent_step|]. cbn [step].
    destruct (start_execute w) as (k & _ & ->). cbn.
    split; [done|]. split; [done|]. split; [done|]. exists (next w).
    split; [rewrite lookup_insert_eq; eauto|].
    intros j Hj. by rewrite lookup_insert_ne.
  - destruct (pending w !! id) as [k|] eqn:Hk.
    + assert (status (store w) = St_loading) as Hl.
      { destruct (status (store w)); try done; destruct Hst as (_ & _ & Hnone);
          by rewrite Hnone in Hk. }
      rewrite Hl in Hst. destruct Hst as (Hd & Herr & id0 & _ & Hnone).
      assert (id = id0) as ->.
      { destruct (decide (id = id0)) as [|Hne]; [done|].
        by rewrite (Hnone _ Hne) in Hk. }
      split; [by apply consistent_step|].
      assert (∀ j, pending (step (Settle id0 (fetchUser one above)) w) !! j = None)
        as Hnone'.
      { intros j. cbn [step]. rewrite (settle_execute w id0 k _ Hw Hk).
        cbn [pending]. rewrite lookup_delete. case_decide; [done|]. by apply Hnone. }
      rewrite store_step by done. rewrite Hk, Hm, fetchUser_one.
      destruct above; cbn; rewrite ?Hd, ?Herr; eauto 10.
    + cbn [step]. unfold settle. rewrite Hk. by split.
Qed.

Lemma steady_run (es : list happening) (w : world) :
  Forall (λ e, is_Click_reset e = false) es → steady w →
  steady (foldl (λ w e, demo_step e w) w es).
Proof.
  intros Hes. revert w. induction Hes as [|e es He _ IH]; intros w Hw; [done|].
  apply IH. by apply steady_step.
Qed.

(** As long as Reset is not clicked, the demo has one fetch in flight at
    most: the Fetch button is disabled exactly while a fetch is in flight,
    so a second call cannot start before the first has come back; and the
    page never shows the error block and the data block together. *)
Theorem demo_one_fetch_at_a_time (es : list happening) :
  Forall (λ e, is_Click_reset e = false) es →
  (fetch_disabled (demo_page es) = true
   ↔ ∃ id, is_Some (pending (demo_run es) !! id)) ∧
  (∀ i j, is_Some (pending (demo_run es) !! i) →
          is_Some (pending (demo_run es) !! j) → i = j) ∧
  ¬ (is_Some (error_block (demo_page es)) ∧ is_Some (data_block (demo_page es))).
Proof.
  intros Hes. destruct (steady_run es demo_mount Hes steady_mount) as (_ & _ & Hst).
  unfold demo_page. fold (demo_run es) in Hst. set (w := demo_run es) in *.
  cbn [Component fetch_disabled error_block data_block useAsync_return
       ret_loading ret_error ret_data].
  rewrite bool_decide_eq_true.
  destruct (status (store w)) eqn:Hs.
  - destruct Hst as (Hd & He & Hnone). rewrite Hd, He. split; [|split].
    + split; [done|]. intros [id [k Hk]]. by rewrite Hnone in Hk.
    + intros i j [k Hk]. by rewrite Hnone in Hk.
    + by intros [[? [=]] _].
  - destruct Hst as (Hd & He & id & Hid & Hnone). rewrite Hd, He. split; [|split].
    + split; [eauto|done].
    + intros i j [ki Hi] [kj Hj].
      destruct (decide (i = id)) as [->|Hi']; [|by rewrite (Hnone _ Hi') in Hi].
      destruct (decide (j = id)) as [->|Hj']; [done|by rewrite (Hnone _ Hj') in Hj].
    + by intros [[? [=]] _].
  - destruct Hst as (Hd & He & Hnone). rewrite He. split; [|split].
    + split; [done|]. intros [id [k Hk]]. by rewrite Hnone in Hk.
    + intros i j [k Hk]. by rewrite Hnone in Hk.
    + by intros [[? [=]] _].
  - destruct Hst as (Hd & He & Hnone). rewrite Hd. split; [|split].
    + split; [done|]. intros [id [k Hk]]. by rewrite Hnone in Hk.
    + intros i j [k Hk]. by rewrite Hnone in Hk.
    + by intros [_ [? [=]]].
Qed.

Lemma fetched_step (e : happening) (w : world) : fetched w → fetched (demo_step e w).
Proof.
  intros (Hw & He & Hd). destruct e as [| |id above]; cbn [demo_step].
  - destruct (fetch_disabled _); [by split|].
    split; [by apply consistent_step|]. by rewrite store_step.
  - split; [by apply consistent_step|]. by rewrite store_step.
  - split; [by apply consistent_step|]. rewrite store_step by done.
    destruct (pending w !! id); [|done].
    destruct (isMountedRef (store w)); [|done]. rewrite fetchUser_one.
    destruct above; cbn; split; naive_solver.
Qed.

(** Whatever is clicked, Reset too, and however the fetches come back, an
    error block on the page shows the message of the one failure of
    [fetchUser], and a data block shows the user [1]. *)
Theorem demo_shows_what_was_fetched (es : list happening) :
  (∀ m, error_block (demo_page es) = Some m → m = "Failed to fetch user data") ∧
  (∀ u, data_block (demo_page es) = Some u →
        u = {| user_id := one; user_name := "User 1";
               user_email := "user1@example.com" |}).
Proof.
  assert (∀ w, fetched w → fetched (foldl (λ w e, demo_step e w) w es)) as Hgen.
  { induction es as [|e es IH]; intros w Hw; [done|]. by apply IH, fetched_step. }
  destruct (Hgen demo_mount) as (_ & He & Hd).
  { split; [apply consistent_step, consistent_mount|by split]. }
  split.
  - intros m. unfold demo_page. cbn [Component error_block useAsync_return ret_error].
    fold (demo_run es) in He. destruct (error (store (demo_run es))) as [e|]; [|done].
    intros [= <-]. by rewrite (He e eq_refl).
  - intros u Hu. by apply Hd.
Qed.

(** With a click on Reset while a fetch is in flight, two fetches overlap,
    and the page can show the failure of one beside the user of the other. *)
Example demo_reset_lets_fetches_overlap :
  error_block (demo_page
    [Click_fetch; Click_reset; Click_fetch; Fetched 0 true; Fetched 1 false])
  = Some "Failed to fetch user data" ∧
  data_block (demo_page
    [Click_fetch; Click_reset; Click_fetch; Fetched 0 true; Fetched 1 false])
  = Some {| user_id := one; user_name := "User 1"; user_email := "user1@example.com" |}.
Proof. done. Qed.

(** [demo_one_fetch_at_a_time] on a fetch that fails and a second one that
    is in flight. *)
Lemma demo_one_fetch_at_a_time_witness :
  Forall (λ e, is_Click_reset e = false)
    [Click_fetch; Fetched 0 true; Click_fetch; Click_fetch] ∧
  is_Some (pending
    (demo_run [Click_fetch; Fetched 0 true; Click_fetch; Click_fetch]) !! 1) ∧
  (fetch_disabled (demo_page [Click_fetch; Fetched 0 true; Click_fetch; Click_fetch])
   = true
   ↔ ∃ id, is_Some (pending
       (demo_run [Click_fetch; Fetched 0 true; Click_fetch; Click_fetch]) !! id)) ∧
  (∀ i j,
     is_Some (pending
       (demo_run [Click_fetch; Fetched 0 true; Click_fetch; Click_fetch]) !! i) →
     is_Some (pending
       (demo_run [Click_fetch; Fetched 0 true; Click_fetch; Click_fetch]) !! j) →
     i = j) ∧
  ¬ (is_Some (error_block
       (demo_page [Click_fetch; Fetched 0 true; Click_fetch; Click_fetch])) ∧
     is_Some (data_block
       (demo_page [Click_fetch; Fetched 0 true; Click_fetch; Click_fetch]))).
Proof.
  assert (Forall (λ e, is_Click_reset e = false)
            [Click_fetch; Fetched 0 true; Click_fetch; Click_fetch]) as H
    by repeat constructor.
  split; [exact H|]. split; [by eexists|].
  exact (demo_one_fetch_at_a_time _ H).
Defined.

End UseAsyncDemoFacts.

(** * More on [useCopyToClipboard]: what a call can and cannot do *)

Section UseCopyToClipboardLifeFacts.
Import UseCopyToClipboard UseCopyToClipboardDemo.
Context {V : Type} `{!Stringable V}.
Implicit Types (h : cells) (o : settled V unit) (text : string)
  (options : option (CopyOptions V)) (v : thrown V).

Local Abbreviation run := (Async.run (V:=V) (handle (V:=V))).
Local Abbreviation run_call := (Async.run_call (V:=V) (handle (V:=V))).
Local Abbreviation world :=
  (Async.world (V:=V) (action V) result string unit cells bool).

(** [true] is an honest answer, whatever the callbacks do: a call of
    [copy] that resolves to [true] found the clipboard, its write
    succeeded, it left [text] in [copiedText], and it did not call
    [onError]. *)
Theorem copy_true_means_written text options h o h' :
  (run_call (copy text options) h o h').2 = Returned true →
  branch_of (navigator h) o = Write_success ∧
  copiedText (run_call (copy text options) h o h').1.1 = Some text ∧
  writes (run_call (copy text options) h o h').1.2 = [Some text] ∧
  times is_Call_onError (run_call (copy text options) h o h').1.2 = 0.
Proof.
  destruct (copy_cases text options h o h')
    as [(Hh & ->)|[(Hh & ->)|[(v & Hh & -> & ->)|
        [(u & Hh & -> & _ & ->)|(u & cb & v & Hh & -> & Hs & Hcb & ->)]]]];
    rewrite Hh; cbn.
  - done.
  - destruct (options ≫= onError) as [cbe|]; [destruct (cbe _)|]; done.
  - destruct (as_Error v); [|done].
    destruct (options ≫= onError) as [cbe|]; [destruct (cbe _)|]; done.
  - intros _. by destruct (options ≫= onSuccess).
  - destruct (as_Error v); [|done].
    destruct (options ≫= onError) as [cbe|]; [destruct (cbe _)|]; done.
Qed.

(** Whatever the callbacks do, a call of [copy] calls [onSuccess] once at
    most and [onError] once at most, gives both the text of this call, and
    calls [onSuccess] only after a write that succeeded. *)
Theorem copy_callbacks_once text options h o h' :
  times is_Call_onSuccess (run_call (copy text options) h o h').1.2 ≤ 1 ∧
  times is_Call_onError (run_call (copy text options) h o h').1.2 ≤ 1 ∧
  Forall (λ t, t = text)
    (omap callback_text (run_call (copy text options) h o h').1.2) ∧
  (0 < times is_Call_onSuccess (run_call (copy text options) h o h').1.2 →
   branch_of (navigator h) o = Write_success).
Proof.
  destruct (copy_cases text options h o h')
    as [(Hh & ->)|[(Hh & ->)|[(v & Hh & -> & ->)|
        [(u & Hh & -> & _ & ->)|(u & cb & v & Hh & -> & Hs & Hcb & ->)]]]];
    rewrite Hh; cbn;
    try destruct (as_Error v);
    try destruct (options ≫= onError) as [cbe|];
    try destruct (options ≫= onSuccess) as [cbs|]; cbn;
    repeat split; try lia; try done; repeat constructor.
Qed.

(** The three ways in which the promise of [copy] is rejected, and no
    other: with the [ReferenceError], where [navigator] is not declared;
    with what [String] threw on a value that reached the [catch], [onError]
    not called; with what [onError] threw, called once with the text. *)
Theorem copy_rejections text options h o h' v :
  (run_call (copy text options) h o h').2 = Threw v →
  (navigator h = Undeclared ∧ v = an_Error ReferenceError_navigator) ∨
  (∃ x, caught text options o (non_Error x) ∧ js_String x = Thrown v ∧
        times is_Call_onError (run_call (copy text options) h o h').1.2 = 0) ∨
  (∃ cb e,
     options ≫= onError = Some cb ∧
     cb (Build_ErrorData e text) = Throws v ∧
     List.filter is_Call_onError (run_call (copy text options) h o h').1.2
     = [Call_onError cb (Build_ErrorData e text)]).
Proof.
  assert (∀ w t, as_Error w = Thrown t → ∃ x, w = non_Error x ∧ js_String x = Thrown t)
    as Hthrown.
  { intros [e|x] t; cbn; [done|]. destruct (js_String x) eqn:Hx; [done|].
    intros [= ->]. eauto. }
  destruct (copy_cases text options h o h')
    as [(Hh & ->)|[(Hh & ->)|[(v' & Hh & -> & ->)|
        [(u & Hh & -> & _ & ->)|(u & cb & v' & Hh & -> & Hs & Hcb & ->)]]]]; cbn.
  - intros [= <-]. by left.
  - intros Hv. do 2 right. destruct (options ≫= onError) as [cbe|]; [|done].
    destruct (cbe _) as [|v''] eqn:Hcbe; [done|]. injection Hv as ->. eauto.
  - destruct (as_Error v') as [e|t] eqn:He; cbn.
    + intros Hv. do 2 right. destruct (options ≫= onError) as [cbe|]; [|done].
      destruct (cbe _) as [|v''] eqn:Hcbe; [done|]. injection Hv as ->. eauto.
    + intros [= ->]. right. left.
      destruct (Hthrown _ _ He) as (x & -> & Hx). exists x.
      split; [by left|]. by split.
  - done.
  - destruct (as_Error v') as [e|t] eqn:He; cbn.
    + intros Hv. do 2 right. destruct (options ≫= onError) as [cbe|]; [|done].
      destruct (cbe _) as [|v''] eqn:Hcbe; [done|]. injection Hv as ->. eauto.
    + intros [= ->]. right. left.
      destruct (Hthrown _ _ He) as (x & -> & Hx). exists x.
      split; [right; by exists u, cb|]. by split.
Qed.

(** *** The demo handlers *)

(** [handleCopyWithPromise] prints "Copied!" also when nothing was copied.
    The promise of [copy] without options is fulfilled with [false] where
    there is no clipboard or the write fails with an [Error] or a value
    that [String] converts: the [then] of the chain runs and prints
    "Copied!", and the [false] that tells the failure is not looked at.
    The [catch] of the chain runs, and prints "Failed to copy!", only
    where the promise is rejected: [navigator] is not declared, or
    [String] threw on what the write was rejected with. *)
Theorem handleCopyWithPromise_prints text h o h' :
  (run_call (handleCopyWithPromise text) h o h').2
  = match navigator h, o with
    | Undeclared, _ => Threw (an_Error ReferenceError_navigator)
    | Without_clipboard, _ => Returned false
    | With_clipboard, Fulfilled _ => Returned true
    | With_clipboard, Rejected v =>
        match as_Error v with
        | Value _ => Returned false
        | Thrown t => Threw t
        end
    end ∧
  then_catch_prints text (run_call (handleCopyWithPromise text) h o h').2
  = [match navigator h, o with
     | Undeclared, _ =>
         Console_error "Failed to copy!" (an_Error ReferenceError_navigator)
     | With_clipboard, Rejected v =>
         match as_Error v with
         | Value _ => Console_log "Copied!" text
         | Thrown t => Console_error "Failed to copy!" t
         end
     | _, _ => Console_log "Copied!" text
     end].
Proof.
  unfold handleCopyWithPromise.
  destruct (copy_cases text None h o h')
    as [(Hh & ->)|[(Hh & ->)|[(v & Hh & -> & ->)|
        [(u & Hh & -> & _ & ->)|(u & cb & v & Hh & -> & Hs & Hcb & ->)]]]];
    [| | | |done]; rewrite Hh; cbn; [done|done| |done].
  by destruct (as_Error v).
Qed.

(** [handleCopyWithCallbacks] prints one line for a call that [copy] sees
    through: "Copied!" with the text when the write succeeded, and "Failed
    to copy!" with the error and the text when there is no clipboard or the
    write failed with an [Error] or a value that [String] converts.  It
    prints nothing where the promise of [copy] is rejected, which the
    handler does not look at: [navigator] is not declared, or [String]
    threw on what the write was rejected with. *)
Theorem handleCopyWithCallbacks_prints_outcome text h o h' :
  (run_call (handleCopyWithCallbacks text) h o h').2
  = match navigator h, o with
    | Undeclared, _ => Threw (an_Error ReferenceError_navigator)
    | Without_clipboard, _ => Returned false
    | With_clipboard, Fulfilled _ => Returned true
    | With_clipboard, Rejected v =>
        match as_Error v with
        | Value _ => Returned false
        | Thrown t => Threw t
        end
    end ∧
  omap callback_prints (run_call (handleCopyWithCallbacks text) h o h').1.2
  = match navigator h, o with
    | Undeclared, _ => []
    | Without_clipboard, _ =>
        [Console_error_text "Failed to copy!"
           (new_Error "Clipboard not supported") text]
    | With_clipboard, Fulfilled _ => [Console_log "Copied!" text]
    | With_clipboard, Rejected v =>
        match as_Error v with
        | Value e => [Console_error_text "Failed to copy!" e text]
        | Thrown _ => []
        end
    end.
Proof.
  unfold handleCopyWithCallbacks.
  destruct (copy_cases text (Some handleCopyWithCallbacks_options) h o h')
    as [(Hh & ->)|[(Hh & ->)|[(v & Hh & -> & ->)|
        [(u & Hh & -> & _ & ->)|(u & cb & v & Hh & -> & Hs & Hcb & ->)]]]];
    [| | | |by injection Hs as <-]; rewrite Hh; cbn; [done|done| |done].
  by destruct (as_Error v).
Qed.

(** *** Where the value of [copiedText] comes from *)

(** The part of [copy] after the [await] ends the call, and leaves in
    [copiedText] the text of the call or [null]. *)
Lemma resumed_copy text options k o h' :
  resumes handle (copy text options) k →
  ∃ h2 tr c,
    run (k o) h' = (h2, tr, c) ∧
    (copiedText h2 = Some text ∨ copiedText h2 = None) ∧
    match c with Suspended _ _ => False | _ => True end.
Proof.
  intros (s & s1 & tr & c & Hrun).
  destruct (navigator s) eqn:Hs.
  - by rewrite run_copy_undeclared in Hrun.
  - rewrite run_copy_missing in Hrun by done.
    destruct (options ≫= onError) as [cbe|]; [destruct (cbe _)|]; done.
  - destruct (run_copy_present text options s Hs) as [k' Hk'].
    rewrite Hk' in Hrun. injection Hrun as _ _ _ <-.
    pose proof (copy_cases text options s o h') as Hcases.
    unfold Async.run_call in Hcases. rewrite Hk' in Hcases.
    destruct (run (k' o) h') as [[h2 tr2] c2].
    exists h2, tr2, c2. split; [done|].
    destruct Hcases
      as [(Hh & _)|[(Hh & _)|[(v & Hh & -> & Hrun)|
          [(u & Hh & -> & _ & Hrun)|(u & cb & v & Hh & -> & _ & _ & Hrun)]]]];
      [congruence|congruence|..];
      try destruct (as_Error v);
      injection Hrun as -> _ ->;
      (split; [cbn; auto|]);
      try (destruct (options ≫= onError) as [cbe|]; [destruct (cbe _)|]); done.
Qed.

(** A call that ends leaves the world: its state is kept and it is no
    longer in flight. *)
Lemma deliver_ended id h tr (c : completion (action V) result string unit bool)
    (w : world) :
  match c with Suspended _ _ => False | _ => True end →
  store (deliver id (h, tr, c) w) = h ∧
  pending (deliver id (h, tr, c) w) = delete id (pending w).
Proof. by destruct c. Qed.

(** In flight are calls of [copy] that the events made, and [copiedText]
    is [null] or the text of one of them. *)
Lemma copied_step (evs : list (event V)) (e : event V) (w : world) :
  (∀ t, copiedText (store w) = Some t → ∃ options, Call_copy t options ∈ evs) →
  (∀ id k, pending w !! id = Some k →
     ∃ text options, resumes handle (copy text options) k ∧
                     Call_copy text options ∈ evs) →
  (∀ t, copiedText (store (step e w)) = Some t →
     ∃ options, Call_copy t options ∈ evs ++ [e]) ∧
  (∀ id k, pending (step e w) !! id = Some k →
     ∃ text options, resumes handle (copy text options) k ∧
                     Call_copy text options ∈ evs ++ [e]).
Proof.
  intros IHc IHp.
  assert (∀ t, copiedText (store w) = Some t →
            ∃ options, Call_copy t options ∈ evs ++ [e]) as IHc'.
  { intros t Ht. destruct (IHc t Ht) as [opts Hin].
    exists opts. apply elem_of_app. by left. }
  assert (∀ id k, pending w !! id = Some k →
            ∃ text options, resumes handle (copy text options) k ∧
                            Call_copy text options ∈ evs ++ [e]) as IHp'.
  { intros id k Hk. destruct (IHp _ _ Hk) as (text & opts & Hres & Hin).
    exists text, opts. split; [done|]. apply elem_of_app. by left. }
  destruct e as [text options|id o|b]; cbn [step]; [| |done].
  - unfold start. destruct (navigator (store w)) eqn:Hc.
    + rewrite run_copy_undeclared by done.
      match goal with
      | |- context [deliver ?id (?h, ?tr, ?c) ?w'] =>
          destruct (deliver_ended id h tr c w') as [-> ->]; [done|]
      end.
      split; [done|]. intros id k. rewrite lookup_delete.
      case_decide; [done|by apply IHp'].
    + rewrite run_copy_missing by done.
      match goal with
      | |- context [deliver ?id (?h, ?tr, ?c) ?w'] =>
          destruct (deliver_ended id h tr c w') as [-> ->]
      end.
      { destruct (options ≫= onError) as [cbe|]; [destruct (cbe _)|]; done. }
      split; [done|]. intros id k. rewrite lookup_delete.
      case_decide; [done|by apply IHp'].
    + destruct (run_copy_present text options (store w) Hc) as [k Hk].
      rewrite Hk. cbn [deliver store pending]. split; [done|].
      intros id k'. rewrite lookup_insert. case_decide; [|by apply IHp'].
      intros [= <-]. exists text, options. split.
      * by exists (store w), (store w), [Get_navigator_clipboard], text.
      * apply elem_of_app. right. by apply list_elem_of_singleton.
  - unfold settle. destruct (pending w !! id) as [k|] eqn:Hk; [|done].
    destruct (IHp _ _ Hk) as (text & options & Hres & Hin).
    destruct (resumed_copy text options k o (store w) Hres)
      as (h2 & tr & c & -> & Hct & Hc).
    destruct (deliver_ended id h2 tr c w Hc) as [-> ->]. split.
    + intros t Ht. destruct Hct as [Hct|Hct]; rewrite Hct in Ht; [|done].
      injection Ht as <-. exists options. apply elem_of_app. by left.
    + intros j kj. rewrite lookup_delete. case_decide; [done|by apply IHp'].
Qed.

(** [copiedText] is never a string out of nowhere: whatever calls were
    made and however their writes settled, when it is not [null] it is the
    text of one of the calls of [copy]. *)
Theorem copiedText_was_copied (platform : navigator_state) (evs : list (event V)) t :
  copiedText (store (run_events evs (mount platform))) = Some t →
  ∃ options, Call_copy t options ∈ evs.
Proof.
  assert (
    (∀ t, copiedText (store (run_events evs (mount platform))) = Some t →
          ∃ options, Call_copy t options ∈ evs) ∧
    (∀ id k, pending (run_events evs (mount (V:=V) platform)) !! id = Some k →
             ∃ text options,
               resumes handle (copy text options) k ∧
               Call_copy text options ∈ evs)) as [Hgen _]; [|by apply Hgen].
  clear t. induction evs as [|e evs [IHc IHp]] using rev_ind.
  { split; [done|]. intros id k Hk. cbn in Hk. by rewrite lookup_empty in Hk. }
  unfold run_events in *. rewrite foldl_app. cbn [foldl].
  by apply copied_step.
Qed.

End UseCopyToClipboardLifeFacts.

(** *** Scenarios for the properties above *)

Section UseAsyncLifeScenarios.
Import UseAsync UseAsyncLife.

Local Abbreviation mount0 := (mount (T:=nat) (V:=string) ()).
Local Abbreviation overlapping :=
  ([Effect false; Call_execute; Call_execute; Settle 1 (Rejected (non_Error "x"))]
   : list (event nat () string)).

(** The test "should use the latest async function", with the functions
    numbered: the render passes the second one before [execute] is called. *)
Example use_the_latest_async_function :
  latest (T:=nat) (V:=string) 1 [Effect false; Render 2] = 2.
Proof. reflexivity. Qed.

(** [settlement_frame] on the first of two overlapping calls: the failure
    of the second has settled, the result of the first is put beside it. *)
Lemma settlement_frame_witness :
  is_Some (pending (run_events overlapping mount0) !! 0) ∧
  isMountedRef (store (run_events overlapping mount0)) = true ∧
  (∀ r : nat, Fulfilled (V:=string) 5 = Fulfilled r → as_updater r = None) ∧
  store (step (Settle 0 (Fulfilled 5)) (run_events overlapping mount0))
  = Cells St_success (Some 5) (Some (new_Error "x")) true () ∧
  pending (step (Settle 0 (Fulfilled 5)) (run_events overlapping mount0)) !! 0 = None ∧
  finished (step (Settle 0 (Fulfilled 5)) (run_events overlapping mount0)) !! 0
  = Some (Fulfilled ()).
Proof.
  assert (is_Some (pending (run_events overlapping mount0) !! 0)) as H1 by by eexists.
  assert (∀ r : nat, Fulfilled (V:=string) 5 = Fulfilled r → as_updater r = None)
    as H2 by done.
  split; [exact H1|]. split; [reflexivity|]. split; [exact H2|].
  exact (settlement_frame () overlapping 0 (Fulfilled 5) H1 eq_refl H2).
Defined.

(** [settlements_after_cleanup] on two calls in flight at the unmounting. *)
Lemma settlements_after_cleanup_witness :
  Forall (λ e, is_settlement e = true)
    [Settle 1 (Fulfilled 5); Settle 0 (Rejected (non_Error "x")) : event nat () string] ∧
  store (run_events
    ([Effect false; Call_execute; Call_execute] ++
     Cleanup :: [Settle 1 (Fulfilled 5); Settle 0 (Rejected (non_Error "x"))]) mount0)
  = store (run_events ([Effect false; Call_execute; Call_execute] ++ [Cleanup]) mount0).
Proof.
  assert (Forall (λ e, is_settlement e = true)
            [Settle 1 (Fulfilled 5); Settle 0 (Rejected (non_Error "x"))
             : event nat () string]) as H by repeat constructor.
  split; [exact H|].
  exact (settlements_after_cleanup () [Effect false; Call_execute; Call_execute] _ H).
Defined.

(** [reset_does_not_cancel]: the component resets while its call is in
    flight, then the call fulfils. *)
Lemma reset_does_not_cancel_witness :
  is_Some (pending (run_events [Effect false; Call_execute] mount0) !! 0) ∧
  isMountedRef (store (run_events [Effect false; Call_execute] mount0)) = true ∧
  (∀ r : nat, Fulfilled (V:=string) 5 = Fulfilled r → as_updater r = None) ∧
  store (run_events
    ([Effect false; Call_execute] ++ [Call_reset; Settle 0 (Fulfilled 5)]) mount0)
  = Cells St_success (Some 5) None true ().
Proof.
  assert (is_Some (pending (run_events [Effect false; Call_execute] mount0) !! 0))
    as H1 by by eexists.
  assert (∀ r : nat, Fulfilled (V:=string) 5 = Fulfilled r → as_updater r = None)
    as H2 by done.
  split; [exact H1|]. split; [reflexivity|]. split; [exact H2|].
  exact (reset_does_not_cancel () [Effect false; Call_execute] 0 (Fulfilled 5)
           H1 eq_refl H2).
Defined.

End UseAsyncLifeScenarios.

Section UseCopyToClipboardLifeScenarios.
Import UseCopyToClipboard.

Local Abbreviation handle0 := (handle (V:=string)).
Local Abbreviation both_throw :=
  (Some {| onSuccess := Some (λ _, Throws (non_Error "first"));
           onError := Some (λ _, Throws (non_Error "second")) |}
   : option (CopyOptions string)).

Local Abbreviation racing :=
  ([Call_copy "a" None; Call_copy "b" None;
    Settle 1 (Rejected (non_Error "denied")); Settle 0 (Fulfilled ())]
   : list (event string)).

(** [copy_true_means_written] on the test "should work without callbacks". *)
Lemma copy_true_means_written_witness :
  (Async.run_call handle0 (copy "Test value" None) (Cells None With_clipboard)
     (Fulfilled ()) (Cells None With_clipboard)).2 = Returned true ∧
  branch_of (V:=string) With_clipboard (Fulfilled ()) = Write_success ∧
  copiedText (Async.run_call handle0 (copy "Test value" None) (Cells None With_clipboard)
                (Fulfilled ()) (Cells None With_clipboard)).1.1 = Some "Test value" ∧
  writes (Async.run_call handle0 (copy "Test value" None) (Cells None With_clipboard)
            (Fulfilled ()) (Cells None With_clipboard)).1.2 = [Some "Test value"] ∧
  times is_Call_onError
    (Async.run_call handle0 (copy "Test value" None) (Cells None With_clipboard)
       (Fulfilled ()) (Cells None With_clipboard)).1.2 = 0.
Proof.
  split; [reflexivity|].
  exact (copy_true_means_written (V:=string) "Test value" None (Cells None With_clipboard)
           (Fulfilled ()) (Cells None With_clipboard) eq_refl).
Defined.

(** [copy_rejections]: [onSuccess] throws after the write, the [catch]
    calls an [onError] that throws too. *)
Lemma copy_rejections_witness :
  (Async.run_call handle0 (copy "Test value" both_throw)
     (Cells None With_clipboard) (Fulfilled ()) (Cells None With_clipboard)).2
  = Threw (non_Error "second") ∧
  ((navigator (Cells None With_clipboard) = Undeclared ∧
    non_Error "second" = an_Error ReferenceError_navigator) ∨
   (∃ x, caught "Test value" both_throw (Fulfilled ()) (non_Error x) ∧
         js_String x = Thrown (non_Error "second") ∧
         times is_Call_onError
           (Async.run_call handle0 (copy "Test value" both_throw)
              (Cells None With_clipboard) (Fulfilled ())
              (Cells None With_clipboard)).1.2 = 0) ∨
   (∃ cb e,
      both_throw ≫= onError = Some cb ∧
      cb (Build_ErrorData e "Test value") = Throws (non_Error "second") ∧
      List.filter is_Call_onError
        (Async.run_call handle0 (copy "Test value" both_throw)
           (Cells None With_clipboard) (Fulfilled ())
           (Cells None With_clipboard)).1.2
      = [Call_onError cb (Build_ErrorData e "Test value")])).
Proof.
  split; [reflexivity|].
  exact (copy_rejections (V:=string) "Test value" both_throw
           (Cells None With_clipboard) (Fulfilled ()) (Cells None With_clipboard)
           (non_Error "second") eq_refl).
Defined.

(** The two other rejections, on a clipboard that rejects the write with an
    object without prototype and on a platform without [navigator]: the
    chain of [handleCopyWithPromise] prints "Failed to copy!", and
    [handleCopyWithCallbacks] prints nothing. *)
Example demo_handlers_on_rejections :
  UseCopyToClipboardDemo.then_catch_prints "Test value"
    (Async.run_call (handle (V:=sample))
       (UseCopyToClipboardDemo.handleCopyWithPromise "Test value")
       (Cells None With_clipboard) (Rejected (non_Error Bare_object))
       (Cells None With_clipboard)).2
  = [UseCopyToClipboardDemo.Console_error "Failed to copy!"
       (an_Error TypeError_primitive)] ∧
  omap UseCopyToClipboardDemo.callback_prints
    (Async.run_call (handle (V:=sample))
       (UseCopyToClipboardDemo.handleCopyWithCallbacks "Test value")
       (Cells None With_clipboard) (Rejected (non_Error Bare_object))
       (Cells None With_clipboard)).1.2
  = [] ∧
  UseCopyToClipboardDemo.then_catch_prints "Test value"
    (Async.run_call handle0
       (UseCopyToClipboardDemo.handleCopyWithPromise "Test value")
       (Cells None Undeclared) (Fulfilled ()) (Cells None Undeclared)).2
  = [UseCopyToClipboardDemo.Console_error "Failed to copy!"
       (an_Error ReferenceError_navigator)] ∧
  UseCopyToClipboardDemo.then_catch_prints "Test value"
    (Async.run_call handle0
       (UseCopyToClipboardDemo.handleCopyWithPromise "Test value")
       (Cells None Without_clipboard) (Fulfilled ()) (Cells None Without_clipboard)).2
  = [UseCopyToClipboardDemo.Console_log "Copied!" "Test value"].
Proof. repeat split. Qed.

(** [copiedText_was_copied]: the write of ["b"] fails, the write of ["a"]
    settles last. *)
Lemma copiedText_was_copied_witness :
  copiedText (store (run_events racing (mount (V:=string) With_clipboard))) = Some "a" ∧
  ∃ options, Call_copy "a" options ∈ racing.
Proof.
  split; [reflexivity|].
  exact (copiedText_was_copied (V:=string) With_clipboard racing "a" eq_refl).
Defined.

End UseCopyToClipboardLifeScenarios.
